(** * Map widgets of gopro-dashboard-overlay

    A shallow embedding of [gopro_overlay/widgets_map.py]: the perceptible
    movement check, the moving map and the journey map, together with the
    properties their description states about them; and of the helper
    functions of [build-scripts/generate-examples.py].

    Numbers.  Python [int] values are [Z].  A Python [float] is a binary64
    number and is modelled by the rational it denotes; an operation that
    may round is the exact operation followed by [Binary64.fl], the
    rounding to the nearest binary64 number, ties to the even significand.
    The program rounds where it turns the opacity into an alpha value,
    where it adds 360 to a negative heading and where it takes the square
    root of the doubled square of the size.  Adding zero, halving and
    comparing are exact; the halves and the differences of the crop
    rectangle, and the differences the movement check compares, are kept
    as exact rationals.  Infinities, NaN and overflow are outside the
    model: every number is of magnitude below 2^1024.  [int(x)] on a float
    truncates towards zero.

    Objects.  PIL images are mutable objects: they live in a store
    ([World]) and are named by their index, so that "the same image" and
    "a copy of the image" are different things.  What the drawing surface
    does to the pixels is outside the program; an image's content is the
    record of the drawing calls that produced it ([Raster]). *)

From Stdlib Require Import ZArith QArith Qabs Qround Qpower Qreduction Reals.
From Stdlib Require Import Lra Lqa Lia List Bool Ascii String.
From stdpp Require Import base option list strings gmap.
Import ListNotations.

Local Open Scope Z_scope.

(* ------------------------------------------------------------------ *)
(** * Python values and outcomes *)

Module Py.

(** The exceptions the modelled code can meet. *)
Inductive Error : Type :=
| TypeError      (* arithmetic on None, paste of None *)
| AttributeError (* a method called on None *)
| ValueError     (* a value that a library call cannot work with *)
| InvalidReference (* an image that is not in the store *).

(** What a call does: it returns a value or raises. *)
Inductive Outcome (A : Type) : Type :=
| Returns (a : A)
| Raises (e : Error).
Arguments Returns {A} a.
Arguments Raises {A} e.

(** [int(x)] for a float [x]: truncation towards zero. *)
Definition int (x : Q) : Z := Z.quot (Qnum x) (Z.pos (Qden x)).

(** [x < y] on floats, as a boolean. *)
Definition ltb (x y : Q) : bool := (Qnum x * QDen y <? Qnum y * QDen x)%Z.

(** [a - b] where either operand may be [None]. *)
Definition sub (a b : option Q) : Outcome Q :=
  match a, b with
  | Some x, Some y => Returns (x - y)%Q
  | _, _ => Raises TypeError
  end.

(** [round(x)] for a float [x]: to the nearest integer, ties to the even
    one. *)
Definition round (x : Q) : Z :=
  let f := Qfloor x in
  let twice_frac := (2 * (x - inject_Z f))%Q in
  if ltb twice_frac 1 then f
  else if ltb 1 twice_frac then f + 1
  else if Z.even f then f else f + 1.

(** Code that reads and updates a state [S] and may raise: the state at
    the moment of the exception is kept, as Python keeps it. *)
Definition M (S A : Type) : Type := S -> Outcome A * S.

Definition ret {S A} (a : A) : M S A := fun s => (Returns a, s).

Definition raise {S A} (e : Error) : M S A := fun s => (Raises e, s).

Definition bind {S A B} (m : M S A) (k : A -> M S B) : M S B :=
  fun s =>
    match m s with
    | (Returns a, s') => k a s'
    | (Raises e, s') => (Raises e, s')
    end.

Definition gets {S A} (f : S -> A) : M S A := fun s => (Returns (f s), s).

Definition modify {S} (f : S -> S) : M S unit := fun s => (Returns tt, f s).

(** Run code written for a part [T] of the state [S]. *)
Definition within {S T A} (get : S -> T) (set : T -> S -> S) (m : M T A)
  : M S A :=
  fun s => let (o, t') := m (get s) in (o, set t' s).

(** Turn an outcome into a step that leaves the state alone. *)
Definition lift {S A} (o : Outcome A) : M S A := fun s => (o, s).

End Py.

Notation "'do' x <- c ; k" := (Py.bind c (fun x => k))
  (at level 10, x name, c at level 100, k at level 200, only parsing).
Notation "'run' c ; k" := (Py.bind c (fun _ => k))
  (at level 10, c at level 100, k at level 200, only parsing).

Import Py.

(* ------------------------------------------------------------------ *)
(** * Binary64 arithmetic *)

(** The floats of the program: rationals of the form m * 2^e with
    |m| < 2^53 and e >= -1074.  The result of an operation on floats is
    the exact result, rounded. *)
Module Binary64.

Definition pow2 (z : Z) : Q := (2 ^ z)%Q.

(** floor(log2 q) for a positive [q]: the difference of the bit lengths
    of numerator and denominator, corrected by one comparison. *)
Definition log2 (q : Q) : Z :=
  let k := Z.log2 (Qnum q) - Z.log2 (Z.pos (Qden q)) in
  if Py.ltb q (pow2 k) then k - 1 else k.

(** The exponent of the binade of a positive [q]; the numbers below
    2^-1022 share the exponent of the smallest binade (subnormals). *)
Definition exponent (q : Q) : Z := Z.max (log2 q) (-1022).

(** The binary64 number nearest to a positive [q]: [q] is scaled so that
    the significand has 53 bits, rounded to the nearest integer, ties to
    the even one, and scaled back. *)
Definition nearest (q : Q) : Q :=
  let e := exponent q in
  Qred (inject_Z (Py.round (q * pow2 (52 - e))) * pow2 (e - 52)).

(** Rounding to binary64.  (A result of magnitude 2^1024 or more, which
    binary64 turns into an infinity, is outside the model.) *)
Definition fl (q : Q) : Q :=
  match Qnum q with
  | 0 => 0%Q
  | Z.pos _ => nearest q
  | Z.neg _ => (- nearest (- q))%Q
  end.

(** [math.sqrt(x)] for a float [x >= 0]: the binary64 number nearest to
    the real square root.  With [2^e <= sqrt x < 2^(e+1)] and
    [y = x * 4^(52-e)], the significand is the integer nearest to
    [sqrt y]: [m = floor (sqrt y)] or [m + 1], as [y] compares with
    [(m + 1/2)^2 = m^2 + m + 1/4].  (A negative argument raises
    [ValueError]; the program's argument is a square times two.) *)
Definition sqrt (x : Q) : Q :=
  match Qnum x with
  | Z.pos _ =>
      let e := log2 x / 2 in
      let y := (x * pow2 (2 * (52 - e)))%Q in
      let m := Z.sqrt (Qfloor y) in
      let middle := (inject_Z (m * m + m) + (1 # 4))%Q in
      let m' :=
        if Py.ltb y middle then m
        else if Py.ltb middle y then m + 1
        else if Z.even m then m else m + 1 in
      Qred (inject_Z m' * pow2 (e - 52))
  | _ => 0%Q
  end.

(** [float(n)] for an [int] [n], as [math.sqrt] converts its argument. *)
Definition of_int (n : Z) : Q := fl (inject_Z n).

End Binary64.

(* ------------------------------------------------------------------ *)
(** * Geographic points and map views *)

(** [Point]: a position whose coordinates are [None] until there is a
    fix. *)
Record Point : Type := mkPoint { lon : option Q; lat : option Q }.

Definition has_fix (p : Point) : bool :=
  match lon p, lat p with
  | Some _, Some _ => true
  | _, _ => false
  end.

Module geotiler.

(** [geotiler.Map]: the view's centre (lon, lat), its zoom and its raster
    size (width, height). *)
Record Map : Type := mk {
  center : Q * Q;
  zoom : Z;
  size : Z * Z
}.

(** [geotiler.Map(center=..., zoom=..., size=...)]. *)
Definition Map_center (c : Q * Q) (z : Z) (sz : Z * Z) : Map :=
  {| center := c; zoom := z; size := sz |}.

End geotiler.

(** The collaborators that are not part of the program: the coordinate
    conversions of a map view ([geocode] maps a pixel to (lon, lat),
    [rev_geocode] maps (lon, lat) to a pixel); the construction of a view
    from an extent, [geotiler.Map(extent=..., size=...)], which raises
    when the extent has no view (a corner without coordinates, an extent
    without width or height); the centre a view has once a zoom has been
    assigned to it, which the library derives; and the bounding box of a
    journey, [journey.bounding_box] with its two corners, which raises
    when the journey has none. *)
Class Externals : Type := {
  geocode : geotiler.Map -> Q * Q -> Q * Q;
  rev_geocode : geotiler.Map -> Q * Q -> Q * Q;
  Map_extent :
    option Q * option Q * option Q * option Q -> Z * Z
    -> Outcome geotiler.Map;
  center_at_zoom : geotiler.Map -> Z -> Q * Q;
  bounding_box : list Point -> Outcome (Point * Point)
}.

(** [map.zoom = z]: the view keeps its size, reports the zoom it was
    given, and has the centre the library derives. *)
Definition set_zoom `{Externals} (z : Z) (m : geotiler.Map) : geotiler.Map :=
  {| geotiler.center := center_at_zoom m z;
     geotiler.zoom := z;
     geotiler.size := geotiler.size m |}.

(** [map.rev_geocode((location.lon, location.lat))]: the conversion is
    float arithmetic, which raises on [None]. *)
Definition rev_geocode_point `{Externals} (m : geotiler.Map) (p : Point)
  : Outcome (Q * Q) :=
  match lon p, lat p with
  | Some x, Some y => Returns (rev_geocode m (x, y))
  | _, _ => Raises TypeError
  end.

(** [xy] is the pixel of the position [p] in the view [m]. *)
Definition projects `{Externals} (m : geotiler.Map) (p : Point) (xy : Q * Q)
  : Prop :=
  rev_geocode_point m p = Returns xy.

(* ------------------------------------------------------------------ *)
(** * class PerceptibleMovementCheck *)

Module PerceptibleMovementCheck.

Record t : Type := mk { last_location : option Point }.

(** [__init__] *)
Definition init : t := {| last_location := None |}.

Definition x_resolution `{Externals} (map_ : geotiler.Map) : Q :=
  let w := inject_Z (fst (geotiler.size map_)) in
  let h := inject_Z (snd (geotiler.size map_)) in
  let location_of_centre_pixel := geocode map_ (w / 2, h / 2)%Q in
  let location_of_one_pixel_away := geocode map_ (w / 2 + 1, h / 2 + 1)%Q in
  Qabs (fst location_of_one_pixel_away - fst location_of_centre_pixel).

Definition y_resolution `{Externals} (map_ : geotiler.Map) : Q :=
  let w := inject_Z (fst (geotiler.size map_)) in
  let h := inject_Z (snd (geotiler.size map_)) in
  let location_of_centre_pixel := geocode map_ (w / 2, h / 2)%Q in
  let location_of_one_pixel_away := geocode map_ (w / 2 + 1, h / 2 + 1)%Q in
  Qabs (snd location_of_one_pixel_away - snd location_of_centre_pixel).

(** [moved(self, map, location)]. *)
Definition moved `{Externals} (map_ : geotiler.Map) (location : Point)
  : M t bool :=
  let x_res := x_resolution map_ in
  let y_res := y_resolution map_ in
  let accept :=
    run Py.modify (fun _ => {| last_location := Some location |});
    Py.ret true in
  do self <- Py.gets (fun s => s);
  match last_location self with
  | Some last =>
      do dx <- Py.lift (Py.sub (lon last) (lon location));
      let x_diff := Qabs dx in
      do dy <- Py.lift (Py.sub (lat last) (lat location));
      let y_diff := Qabs dy in
      if Py.ltb x_diff x_res && Py.ltb y_diff y_res
      then Py.ret false
      else accept
  | None => accept
  end.

End PerceptibleMovementCheck.

(* ------------------------------------------------------------------ *)
(** * The drawing surface (PIL) *)

Definition Colour : Type := Z * Z * Z.
Definition Box : Type := Q * Q * Q * Q.

(** The content of an image: the calls that produced it; the outermost
    constructor is the most recent call. *)
Inductive Raster : Type :=
| Tiles (m : geotiler.Map)
    (* renderer(map) *)
| New (sz : Z * Z) (v : Z)
    (* Image.new('L', size, v) *)
| Ellipse (box : Box) (fill outline : Colour) (r : Raster)
    (* ImageDraw.Draw(r).ellipse(box, fill, outline) *)
| Line (xy : list (Q * Q)) (fill : Colour) (width : Z) (r : Raster)
    (* ImageDraw.Draw(r).line(xy, fill, width) *)
| RoundedRectangle (box : Z * Z * Z * Z) (radius : Z)
    (fill : option Z) (outline : option Colour) (r : Raster)
    (* ImageDraw.Draw(r).rounded_rectangle(box, radius, fill, outline) *)
| Rotate (angle : Q) (r : Raster)
    (* r.rotate(angle) *)
| Crop (box : Box) (r : Raster)
    (* r.crop(box) *)
| PutAlpha (v : Z) (r : Raster)
    (* r.putalpha(v), v an int *)
| PutAlphaMask (mask : Raster) (r : Raster)
    (* r.putalpha(mask), mask an image *)
| Paste (src : Raster) (xy : Z * Z) (r : Raster)
    (* r.paste(src, xy) *).

(** Images are objects: the store holds their contents, an image is named
    by its index in the store. *)
Abbreviation ImageId := nat (only parsing).
Abbreviation World := (list Raster) (only parsing).

(** [image.size]. *)
Fixpoint raster_size (r : Raster) : Z * Z :=
  match r with
  | Tiles m => geotiler.size m
  | New sz _ => sz
  | Crop (x0, y0, x1, y1) _ =>
      (Py.round x1 - Py.round x0, Py.round y1 - Py.round y0)
  | Ellipse _ _ _ r' | Line _ _ _ r' | RoundedRectangle _ _ _ _ r'
  | Rotate _ r' | PutAlpha _ r' | PutAlphaMask _ r' | Paste _ _ r' =>
      raster_size r'
  end.

(** Whether an ellipse was drawn on the image, or on an image it was
    derived from by rotation, cropping or copy. *)
Fixpoint has_ellipse (r : Raster) : bool :=
  match r with
  | Tiles _ | New _ _ => false
  | Ellipse _ _ _ _ => true
  | Line _ _ _ r' | RoundedRectangle _ _ _ _ r' | Rotate _ r' | Crop _ r'
  | PutAlpha _ r' | PutAlphaMask _ r' | Paste _ _ r' => has_ellipse r'
  end.

(** The images pasted onto an image, most recent first. *)
Fixpoint pastes (r : Raster) : list (Raster * (Z * Z)) :=
  match r with
  | Tiles _ | New _ _ => []
  | Paste src xy r' => (src, xy) :: pastes r'
  | Ellipse _ _ _ r' | Line _ _ _ r' | RoundedRectangle _ _ _ _ r'
  | Rotate _ r' | Crop _ r' | PutAlpha _ r' | PutAlphaMask _ r' => pastes r'
  end.

(** The alpha band of an image at a pixel.  [putalpha] with an int sets
    the band of every pixel to that int; in every other case the value is
    the drawing surface's business ([surface_alpha]). *)
Definition alpha_at (surface_alpha : Raster -> Z -> Z -> Z)
  (r : Raster) (x y : Z) : Z :=
  match r with
  | PutAlpha v _ => v
  | _ => surface_alpha r x y
  end.

Module Image.

(** A new image object with the given content. *)
Definition alloc (r : Raster) : M World ImageId :=
  fun w => (Returns (length w), w ++ [r]).

Definition content (im : ImageId) : M World Raster :=
  fun w =>
    match w !! im with
    | Some r => (Returns r, w)
    | None => (Raises InvalidReference, w)
    end.

(** A call that changes an image in place. *)
Definition update (im : ImageId) (f : Raster -> Raster) : M World unit :=
  fun w =>
    match w !! im with
    | Some r => (Returns tt, <[im := f r]> w)
    | None => (Raises InvalidReference, w)
    end.

Definition new (sz : Z * Z) (v : Z) : M World ImageId := alloc (New sz v).

Definition size (im : ImageId) : M World (Z * Z) :=
  do r <- content im; Py.ret (raster_size r).

Definition copy (im : ImageId) : M World ImageId :=
  do r <- content im; alloc r.

Definition rotate (im : ImageId) (angle : Q) : M World ImageId :=
  do r <- content im; alloc (Rotate angle r).

Definition crop (im : ImageId) (box : Box) : M World ImageId :=
  do r <- content im; alloc (Crop box r).

Definition putalpha (im : ImageId) (v : Z) : M World unit :=
  update im (PutAlpha v).

Definition putalpha_mask (im mask : ImageId) : M World unit :=
  do m <- content mask; update im (PutAlphaMask m).

(** [image.paste(src, xy)]; [src] may be [None]. *)
Definition paste (im : ImageId) (src : option ImageId) (xy : Z * Z)
  : M World unit :=
  match src with
  | Some src => do s <- content src; update im (Paste s xy)
  | None => Py.raise TypeError
  end.

End Image.

(** [ImageDraw.Draw(image)] draws on [image] itself: a draw handle is the
    image it was made for. *)
Module ImageDraw.

Definition ellipse (draw : ImageId) (box : Box) (fill outline : Colour)
  : M World unit :=
  Image.update draw (Ellipse box fill outline).

Definition line (draw : ImageId) (xy : list (Q * Q)) (fill : Colour)
  (width : Z) : M World unit :=
  Image.update draw (Line xy fill width).

Definition rounded_rectangle (draw : ImageId) (box : Z * Z * Z * Z)
  (radius : Z) (fill : option Z) (outline : option Colour) : M World unit :=
  Image.update draw (RoundedRectangle box radius fill outline).

End ImageDraw.

(** [self.renderer(map)]: a fresh image of the map's tiles.  The
    renderer is a collaborator; it is modelled as it behaves when it
    returns, and a renderer that fails is outside the model. *)
Definition renderer (map_ : geotiler.Map) : M World ImageId :=
  Image.alloc (Tiles map_).

(** [draw_marker(draw, position, size, fill=None)] *)
Definition draw_marker (draw : ImageId) (position : Q * Q) (size : Z)
  (fill : option Colour) : M World unit :=
  let fill := match fill with Some f => f | None => (0, 0, 255) end in
  let sz := inject_Z size in
  ImageDraw.ellipse draw
    (fst position - sz, snd position - sz,
     fst position + sz, snd position + sz)%Q
    fill (0, 0, 0).

(** [rounded_corners(frame, radius, opacity)] *)
Definition rounded_corners (frame : ImageId) (radius : Z) (opacity : Q)
  : M World ImageId :=
  do sz <- Image.size frame;
  do mask <- Image.new sz 0;
  run ImageDraw.rounded_rectangle mask (0, 0, fst sz - 1, snd sz - 1) radius
        (Some (Py.int (Binary64.fl (opacity * 255)))) None;
  run Image.putalpha_mask frame mask;
  Py.ret frame.

(** The border both widgets draw when there is no corner radius:
    [(0, 0, 0, size - 1, size - 1, size - 1, size - 1, 0, 0, 0)]. *)
Definition square_outline (size : Z) : list (Q * Q) :=
  let z := inject_Z 0 in
  let s := inject_Z (size - 1) in
  [(z, z); (z, s); (s, s); (s, z); (z, z)].

(* ------------------------------------------------------------------ *)
(** * class MovingMap *)

Module MovingMap.

Record t : Type := mk {
  at_ : Z * Z;                 (* self.at.tuple() *)
  rotate : bool;
  size : Z;
  zoom : Z;
  corner_radius : option Z;
  opacity : Q;
  hypotenuse : Z;
  half_width_height : Q;
  bounds : Box;
  perceptible : PerceptibleMovementCheck.t;
  cached : option ImageId
}.

Definition set_perceptible (p : PerceptibleMovementCheck.t) (self : t) : t :=
  {| at_ := at_ self; rotate := rotate self; size := size self;
     zoom := zoom self; corner_radius := corner_radius self;
     opacity := opacity self; hypotenuse := hypotenuse self;
     half_width_height := half_width_height self; bounds := bounds self;
     perceptible := p; cached := cached self |}.

Definition set_cached (c : option ImageId) (self : t) : t :=
  {| at_ := at_ self; rotate := rotate self; size := size self;
     zoom := zoom self; corner_radius := corner_radius self;
     opacity := opacity self; hypotenuse := hypotenuse self;
     half_width_height := half_width_height self; bounds := bounds self;
     perceptible := perceptible self; cached := c |}.

(** [int(math.sqrt((size ** 2) * 2))]: the doubled square is an [int],
    [math.sqrt] converts it to a float and returns a float. *)
Definition hypotenuse_of (size : Z) : Z :=
  Py.int (Binary64.sqrt (Binary64.of_int ((size ^ 2) * 2))).

(** [__init__]; the position, heading and tile sources are consulted by
    [draw] and [_redraw].  The halves [hypotenuse / 2] and [size / 2] and
    their sums and differences are exact in binary64 for sizes below
    2^50. *)
Definition init (at_ : Z * Z) (rotate : bool) (size zoom : Z)
  (corner_radius : option Z) (opacity : Q) : t :=
  let hypotenuse := hypotenuse_of size in
  let half_width_height := (inject_Z hypotenuse / 2)%Q in
  let half_size := (inject_Z size / 2)%Q in
  {| at_ := at_; rotate := rotate; size := size; zoom := zoom;
     corner_radius := corner_radius; opacity := opacity;
     hypotenuse := hypotenuse;
     half_width_height := half_width_height;
     bounds := (half_width_height - half_size,
                half_width_height - half_size,
                half_width_height + half_size,
                half_width_height + half_size)%Q;
     perceptible := PerceptibleMovementCheck.init;
     cached := None |}.

(** The [else] branch of the finishing step: plain border, flat alpha. *)
Definition plain_finish (self : t) (crop : ImageId) : M World ImageId :=
  run ImageDraw.line crop (square_outline (size self)) (0, 0, 0) 0;
  run Image.putalpha crop (Py.int (Binary64.fl (255 * opacity self)));
  Py.ret crop.

(** [_redraw(self, map)]; [azimuth] is what [self.azimuth()] returns
    (degrees, or [None]).  [0 + azi] is exact, [360 + azi] rounds. *)
Definition _redraw (self : t) (map_ : geotiler.Map) (azimuth : option Q)
  : M World ImageId :=
  do map_image <- renderer map_;
  run draw_marker map_image
        (half_width_height self, half_width_height self) 6 None;
  do map_image <-
    (* [if azimuth and self.rotate]: [None] and a zero angle are falsy *)
    match azimuth with
    | Some azi =>
        if negb (Qeq_bool azi 0) && rotate self then
          let angle :=
            if Qle_bool 0 azi then (0 + azi)%Q
            else Binary64.fl (360 + azi) in
          Image.rotate map_image angle
        else Py.ret map_image
    | None => Py.ret map_image
    end;
  do crop <- Image.crop map_image (bounds self);
  (* [if self.corner_radius]: [None] and [0] are falsy *)
  match corner_radius self with
  | Some radius =>
      if negb (radius =? 0) then
        do crop <- rounded_corners crop radius (opacity self);
        run ImageDraw.rounded_rectangle crop
              (0, 0, size self - 1, size self - 1) radius
              None (Some (0, 0, 0));
        Py.ret crop
      else plain_finish self crop
  | None => plain_finish self crop
  end.

Definition on_self {A} (m : M t A) : M (t * World) A :=
  Py.within fst (fun s '(_, w) => (s, w)) m.

Definition on_world {A} (m : M World A) : M (t * World) A :=
  Py.within snd (fun w '(s, _) => (s, w)) m.

Definition on_perceptible {A} (m : M PerceptibleMovementCheck.t A)
  : M (t * World) A :=
  on_self (Py.within perceptible set_perceptible m).

(** Lines 176-180 of [draw]: build the view around the position and
    redraw the cache when the movement is perceptible. *)
Definition refresh `{Externals} (x y : Q) (location : Point)
  (azimuth : option Q) : M (t * World) unit :=
  do self <- Py.gets fst;
  let map_ :=
    geotiler.Map_center (x, y) (zoom self)
      (hypotenuse self, hypotenuse self) in
  do has_moved <-
    on_perceptible (PerceptibleMovementCheck.moved map_ location);
  if has_moved : bool then
    do self <- Py.gets fst;
    do crop <- on_world (_redraw self map_ azimuth);
    on_self (Py.modify (set_cached (Some crop)))
  else Py.ret tt.

(** [draw(self, image, draw)]; [location] is what [self.location()]
    returns for this frame, [azimuth] what [self.azimuth()] returns. *)
Definition draw `{Externals} (image : ImageId) (location : Point)
  (azimuth : option Q) : M (t * World) unit :=
  match lon location, lat location with
  | Some x, Some y =>
      run refresh x y location azimuth;
      do self <- Py.gets fst;
      on_world (Image.paste image (cached self) (at_ self))
  | _, _ => Py.ret tt
  end.

(** The states a moving map goes through while its tile renderer returns
    normally: it is constructed, it draws frames, and between two frames
    the rest of the program may create and change images, but removes
    none. *)
Inductive reachable `{Externals} : t * World -> Prop :=
| reach_init at_ rotate size zoom corner_radius opacity w :
    reachable (init at_ rotate size zoom corner_radius opacity, w)
| reach_draw s image location azimuth o s' :
    reachable s ->
    draw image location azimuth s = (o, s') ->
    reachable s'
| reach_others self w w' :
    reachable (self, w) ->
    (length w <= length w')%nat ->
    (forall c, cached self = Some c -> w' !! c = w !! c) ->
    reachable (self, w').

(** What the fields of a moving map have in common in every state it
    goes through: a stored last position has both coordinates and comes
    with a cached raster, and the cached raster is an image of the store
    that shows the marker. *)
Definition consistent (s : t * list Raster) : Prop :=
  (forall l,
     PerceptibleMovementCheck.last_location (perceptible (fst s)) = Some l ->
     has_fix l = true /\ cached (fst s) <> None) /\
  (forall c,
     cached (fst s) = Some c ->
     exists r, snd s !! c = Some r /\ has_ellipse r = true).

End MovingMap.

(* ------------------------------------------------------------------ *)
(** * class Journey *)

(** Modelled from the spec: the [Journey] class of [journey.py] and the
    traversal of the timeseries, which are imported by the program and are
    not part of it: "an accumulating, append-only fold over the full route
    producing a BoundingBox and the ordered sequence of visited GeoPoints".
    The timeseries is the list of its positions; the bounding box is left
    to [bounding_box]. *)
Module Journey.

Record t : Type := mk { locations : list Point }.

Definition init : t := {| locations := [] |}.

Definition accept (self : t) (item : Point) : t :=
  {| locations := locations self ++ [item] |}.

(** [timeseries.process(journey.accept)] *)
Definition process (timeseries : list Point) (journey : t) : t :=
  fold_left accept timeseries journey.

End Journey.

(* ------------------------------------------------------------------ *)
(** * class JourneyMap *)

Module JourneyMap.

Record t : Type := mk {
  timeseries : list Point;
  privacy_zone : Point -> bool;   (* privacy_zone.encloses *)
  at_ : Z * Z;                    (* self.at.tuple() *)
  corner_radius : option Z;
  opacity : Q;
  size : Z;
  map_ : option geotiler.Map;
  image : option ImageId
}.

(** [__init__] *)
Definition init (timeseries : list Point) (at_ : Z * Z)
  (size : Z) (corner_radius : option Z) (opacity : Q)
  (privacy_zone : Point -> bool) : t :=
  {| timeseries := timeseries; privacy_zone := privacy_zone; at_ := at_;
     corner_radius := corner_radius; opacity := opacity; size := size;
     map_ := None; image := None |}.

Definition set_map (m : geotiler.Map) (self : t) : t :=
  {| timeseries := timeseries self; privacy_zone := privacy_zone self;
     at_ := at_ self; corner_radius := corner_radius self;
     opacity := opacity self; size := size self;
     map_ := Some m; image := image self |}.

Definition set_image (im : ImageId) (self : t) : t :=
  {| timeseries := timeseries self; privacy_zone := privacy_zone self;
     at_ := at_ self; corner_radius := corner_radius self;
     opacity := opacity self; size := size self;
     map_ := map_ self; image := Some im |}.

(** The list comprehension
    [[map.rev_geocode((l.lon, l.lat)) for l in locations
      if not privacy_zone.encloses(l)]]:
    a loop over [locations] that appends to the list built so far. *)
Fixpoint plots_from `{Externals} (m : geotiler.Map) (encloses : Point -> bool)
  (locations : list Point) (acc : list (Q * Q)) : Outcome (list (Q * Q)) :=
  match locations with
  | [] => Returns acc
  | location :: rest =>
      if negb (encloses location) then
        match rev_geocode_point m location with
        | Returns xy => plots_from m encloses rest (acc ++ [xy])
        | Raises e => Raises e
        end
      else plots_from m encloses rest acc
  end.

Definition plots `{Externals} (m : geotiler.Map) (encloses : Point -> bool)
  (locations : list Point) : Outcome (list (Q * Q)) :=
  plots_from m encloses locations [].

(** The [else] branch of the finishing step: plain border, flat alpha. *)
Definition plain_finish (self : t) (image : ImageId) : M World ImageId :=
  run ImageDraw.line image (square_outline (size self)) (0, 0, 0) 0;
  run Image.putalpha image (Py.int (Binary64.fl (255 * opacity self)));
  Py.ret image.

(** The backdrop: tiles, route, border and alpha. *)
Definition backdrop (self : t) (m : geotiler.Map) (route : list (Q * Q))
  : M World ImageId :=
  do image <- renderer m;
  run ImageDraw.line image route (255, 0, 0) 4;
  (* [if self.corner_radius]: [None] and [0] are falsy *)
  match corner_radius self with
  | Some radius =>
      if negb (radius =? 0) then
        do image <- rounded_corners image radius (opacity self);
        run ImageDraw.rounded_rectangle image
              (0, 0, size self - 1, size self - 1) radius
              None (Some (0, 0, 0));
        Py.ret image
      else plain_finish self image
  | None => plain_finish self image
  end.

Definition on_self {A} (m : M t A) : M (t * World) A :=
  Py.within fst (fun s '(_, w) => (s, w)) m.

Definition on_world {A} (m : M World A) : M (t * World) A :=
  Py.within snd (fun w '(s, _) => (s, w)) m.

(** Lines 58-59: the zoom of the view is brought down to 18. *)
Definition capped `{Externals} (m : geotiler.Map) : geotiler.Map :=
  if 18 <? geotiler.zoom m then set_zoom 18 m else m.

(** [_init_maybe(self)] *)
Definition _init_maybe `{Externals} : M (t * World) unit :=
  do self <- Py.gets fst;
  match map_ self with
  | None =>
      let journey := Journey.process (timeseries self) Journey.init in
      do bbox <- Py.lift (bounding_box (Journey.locations journey));
      (* the view is built before [self.map] is assigned: when the
         construction raises, [self.map] is still [None] *)
      do m <-
        Py.lift
          (Map_extent
             (lon (fst bbox), lat (fst bbox), lon (snd bbox), lat (snd bbox))
             (size self, size self));
      let m := capped m in
      (* [self.map] is assigned, and its zoom clamped, before the route
         is projected *)
      run on_self (Py.modify (set_map m));
      do route <-
        Py.lift (plots m (privacy_zone self) (Journey.locations journey));
      do image <- on_world (backdrop self m route);
      on_self (Py.modify (set_image image))
  | Some _ => Py.ret tt
  end.

(** [draw(self, image, draw)]; [location] is what [self.location()]
    returns for this frame. *)
Definition draw `{Externals} (image_ : ImageId) (location : Point)
  : M (t * World) unit :=
  run _init_maybe;
  do self <- Py.gets fst;
  do frame <-
    match image self with
    | Some backdrop_image => on_world (Image.copy backdrop_image)
    | None => Py.raise AttributeError
    end;
  do current <-
    match map_ self with
    | Some m => Py.lift (rev_geocode_point m location)
    | None => Py.raise AttributeError
    end;
  run on_world (draw_marker frame current 6 None);
  on_world (Image.paste image_ (Some frame) (at_ self)).

End JourneyMap.

(* ------------------------------------------------------------------ *)
(** * The pictures the widgets produce *)

(** The contents of the images the widgets build, written as values: what
    [_redraw] and [_init_maybe] leave in the store is compared with
    these. *)
Module Picture.

Definition black : Colour := (0, 0, 0).

(** The marker of [draw_marker] at its default colour. *)
Definition marker (position : Q * Q) (size : Z) (r : Raster) : Raster :=
  Ellipse
    (fst position - inject_Z size, snd position - inject_Z size,
     fst position + inject_Z size, snd position + inject_Z size)%Q
    (0, 0, 255) black r.

(** The rotation applied for a heading, if any. *)
Definition heading (rotate : bool) (azimuth : option Q) : option Q :=
  match azimuth with
  | Some azi =>
      if negb (Qeq_bool azi 0) && rotate
      then Some (if Qle_bool 0 azi then (0 + azi)%Q
                 else Binary64.fl (360 + azi))
      else None
  | None => None
  end.

Definition turned (angle : option Q) (r : Raster) : Raster :=
  match angle with Some a => Rotate a r | None => r end.

(** The corner radius, when it counts as one. *)
Definition rounded (corner_radius : option Z) : option Z :=
  match corner_radius with
  | Some radius => if negb (radius =? 0) then Some radius else None
  | None => None
  end.

(** The mask of [rounded_corners]. *)
Definition mask (sz : Z * Z) (radius : Z) (opacity : Q) : Raster :=
  RoundedRectangle (0, 0, fst sz - 1, snd sz - 1) radius
    (Some (Py.int (Binary64.fl (opacity * 255)))) None (New sz 0).

(** The finishing step shared by both widgets. *)
Definition finished (corner_radius : option Z) (opacity : Q) (size : Z)
  (r : Raster) : Raster :=
  match rounded corner_radius with
  | Some radius =>
      RoundedRectangle (0, 0, size - 1, size - 1) radius None (Some black)
        (PutAlphaMask (mask (raster_size r) radius opacity) r)
  | None =>
      PutAlpha (Py.int (Binary64.fl (255 * opacity)))
        (Line (square_outline size) black 0 r)
  end.

(** What [MovingMap._redraw] returns. *)
Definition moving (self : MovingMap.t) (map_ : geotiler.Map)
  (azimuth : option Q) : Raster :=
  let centre :=
    (MovingMap.half_width_height self, MovingMap.half_width_height self) in
  finished (MovingMap.corner_radius self) (MovingMap.opacity self)
    (MovingMap.size self)
    (Crop (MovingMap.bounds self)
       (turned (heading (MovingMap.rotate self) azimuth)
          (marker centre 6 (Tiles map_)))).

(** The images [MovingMap._redraw] takes its crop from, in the order of
    their creation: the tiles with the marker drawn on them and, when
    there is a rotation, the rotated image. *)
Definition sources (self : MovingMap.t) (map_ : geotiler.Map)
  (azimuth : option Q) : list Raster :=
  let centre :=
    (MovingMap.half_width_height self, MovingMap.half_width_height self) in
  let marked := marker centre 6 (Tiles map_) in
  marked ::
  match heading (MovingMap.rotate self) azimuth with
  | Some angle => [Rotate angle marked]
  | None => []
  end.

(** All the images [MovingMap._redraw] creates, in the order of their
    creation and as it leaves them: the sources, the finished crop and,
    with rounded corners, the mask. *)
Definition redrawn (self : MovingMap.t) (map_ : geotiler.Map)
  (azimuth : option Q) : list Raster :=
  let centre :=
    (MovingMap.half_width_height self, MovingMap.half_width_height self) in
  let crop :=
    Crop (MovingMap.bounds self)
      (turned (heading (MovingMap.rotate self) azimuth)
         (marker centre 6 (Tiles map_))) in
  sources self map_ azimuth
  ++ [moving self map_ azimuth]
  ++ match rounded (MovingMap.corner_radius self) with
     | Some radius =>
         [mask (raster_size crop) radius (MovingMap.opacity self)]
     | None => []
     end.

(** What [JourneyMap._init_maybe] keeps as the backdrop. *)
Definition journey (self : JourneyMap.t) (m : geotiler.Map)
  (route : list (Q * Q)) : Raster :=
  finished (JourneyMap.corner_radius self) (JourneyMap.opacity self)
    (JourneyMap.size self)
    (Line route (255, 0, 0) 4 (Tiles m)).

End Picture.

(* ------------------------------------------------------------------ *)
(** * What the description says, in its own words *)

Module Described.

Local Open Scope R_scope.

(** [z = ceil(r)]: the least integer not below [r]. *)
Definition is_ceil (r : R) (z : Z) : Prop := IZR z - 1 < r <= IZR z.

(** [z = floor(r)]: the greatest integer not above [r]. *)
Definition is_floor (r : R) (z : Z) : Prop := IZR z <= r < IZR z + 1.

(** "compute hypotenuse = ceil(sqrt(2) * size)", "hypotenuse >= size *
    sqrt(2)". *)
Definition rotation_safe (size hypotenuse : Z) : Prop :=
  is_ceil (sqrt 2 * IZR size) hypotenuse /\
  IZR size * sqrt 2 <= IZR hypotenuse.

(** "alpha channel is uniformly round(o*255)". *)
Definition rounded_alpha (o : Q) : Z := Py.round (o * 255).

(** The points of a route that a privacy zone does not enclose, in the
    order of the route. *)
Definition not_enclosed (encloses : Point -> bool) (route : list Point)
  : list Point :=
  List.filter (fun p => negb (encloses p)) route.

End Described.

(* ------------------------------------------------------------------ *)
(** * Sample collaborators and inputs *)

Module Sample.

(** A flat map provider: one pixel is [2^-zoom] degrees on both axes, the
    centre of the raster is the centre of the view, and latitude grows
    upwards. *)
Definition scale (m : geotiler.Map) : Q := 1 / inject_Z (2 ^ geotiler.zoom m).

Definition flat_geocode (m : geotiler.Map) (xy : Q * Q) : Q * Q :=
  let w := inject_Z (fst (geotiler.size m)) in
  let h := inject_Z (snd (geotiler.size m)) in
  (fst (geotiler.center m) + (fst xy - w / 2) * scale m,
   snd (geotiler.center m) - (snd xy - h / 2) * scale m)%Q.

Definition flat_rev_geocode (m : geotiler.Map) (lonlat : Q * Q) : Q * Q :=
  let w := inject_Z (fst (geotiler.size m)) in
  let h := inject_Z (snd (geotiler.size m)) in
  (w / 2 + (fst lonlat - fst (geotiler.center m)) / scale m,
   h / 2 - (snd lonlat - snd (geotiler.center m)) / scale m)%Q.

(** The view of an extent: centred on its middle, at zoom 19.  An extent
    with a corner that lacks a coordinate, or without width or height,
    has no view. *)
Definition flat_extent (e : option Q * option Q * option Q * option Q)
  (sz : Z * Z) : Outcome geotiler.Map :=
  match e with
  | (Some w, Some s, Some e, Some n) =>
      if Qeq_bool w e || Qeq_bool s n then Raises ValueError
      else
        Returns
          {| geotiler.center := ((w + e) / 2, (s + n) / 2)%Q;
             geotiler.zoom := 19;
             geotiler.size := sz |}
  | _ => Raises TypeError
  end.

(** A bounding box that is good enough for routes that go from one
    corner to the other: the first and the last position.  An empty
    route has none. *)
Definition ends (route : list Point) : Outcome (Point * Point) :=
  match route with
  | [] => Raises ValueError
  | first :: _ => Returns (first, List.last route first)
  end.

Definition flat : Externals :=
  {| geocode := flat_geocode; rev_geocode := flat_rev_geocode;
     Map_extent := flat_extent;
     center_at_zoom := fun m _ => geotiler.center m;
     bounding_box := ends |}.

(** A provider whose views are a single location: every pixel geocodes
    to the centre. *)
Definition pointlike : Externals :=
  {| geocode := fun m _ => geotiler.center m;
     rev_geocode := fun m _ => (0, 0)%Q;
     Map_extent := flat_extent;
     center_at_zoom := fun m _ => geotiler.center m;
     bounding_box := ends |}.

Definition position (x y : Q) : Point := mkPoint (Some x) (Some y).
Definition no_fix : Point := mkPoint None None.
Definition no_lon (y : Q) : Point := mkPoint None (Some y).

Definition view : geotiler.Map :=
  geotiler.Map_center (1, 2)%Q 4 (362, 362).

(** A destination frame, alone in the store. *)
Definition frame : World := [New (640, 480) 0].

Definition moving (opacity : Q) : MovingMap.t :=
  MovingMap.init (10, 20) true 256 4 None opacity.

Definition route : list Point := [position 0 0; position 1 1; position 2 2].

Definition home (p : Point) : bool :=
  match lon p with Some x => Qeq_bool x 1 | None => false end.

Definition journey : JourneyMap.t :=
  JourneyMap.init route (10, 20) 256 None (1 # 4) home.

End Sample.

(* ------------------------------------------------------------------ *)
(** * Reading an image's content *)

(** The view whose tiles an image shows: the image may have been drawn
    on, rotated, cropped, copied or pasted on since. *)
Fixpoint tiles_of (r : Raster) : option geotiler.Map :=
  match r with
  | Tiles m => Some m
  | New _ _ => None
  | Ellipse _ _ _ r' | Line _ _ _ r' | RoundedRectangle _ _ _ _ r'
  | Rotate _ r' | Crop _ r' | PutAlpha _ r' | PutAlphaMask _ r'
  | Paste _ _ r' => tiles_of r'
  end.

(** The angle of the most recent rotation an image went through. *)
Fixpoint rotation_of (r : Raster) : option Q :=
  match r with
  | Tiles _ | New _ _ => None
  | Rotate angle _ => Some angle
  | Ellipse _ _ _ r' | Line _ _ _ r' | RoundedRectangle _ _ _ _ r'
  | Crop _ r' | PutAlpha _ r' | PutAlphaMask _ r' | Paste _ _ r' =>
      rotation_of r'
  end.

(** The image is a rendering of tiles on which one ellipse was drawn,
    and nothing else was done to it. *)
Definition marked_tiles (r : Raster) : bool :=
  match r with
  | Ellipse _ _ _ (Tiles _) => true
  | _ => false
  end.

(** The image is marked tiles, or the rotation of marked tiles. *)
Definition marked_then_turned (r : Raster) : bool :=
  match r with
  | Rotate _ r' => marked_tiles r'
  | _ => marked_tiles r
  end.

(** The marker was drawn on the tiles before they were rotated and
    cropped: the image is a crop of marked tiles, rotated or not, and
    since the crop it has only gone through finishing steps (border,
    alpha) or received pastes.  A marker drawn after the rotation or
    after the crop does not count. *)
Fixpoint marked_before_crop (r : Raster) : bool :=
  match r with
  | Crop _ r' => marked_then_turned r'
  | Line _ _ _ r' | RoundedRectangle _ _ _ _ r' | PutAlpha _ r'
  | PutAlphaMask _ r' | Paste _ _ r' => marked_before_crop r'
  | Tiles _ | New _ _ | Ellipse _ _ _ _ | Rotate _ _ => false
  end.

(* ------------------------------------------------------------------ *)
(** * The moving map over several frames *)

Module Frames.

(** The view [MovingMap.draw] builds around the position (x, y). *)
Definition view_at (self : MovingMap.t) (x y : Q) : geotiler.Map :=
  geotiler.Map_center (x, y) (MovingMap.zoom self)
    (MovingMap.hypotenuse self, MovingMap.hypotenuse self).

(** The cached raster shows tiles centred on the stored last position. *)
Definition centred (s : MovingMap.t * list Raster) : Prop :=
  forall c,
    MovingMap.cached (fst s) = Some c ->
    exists r l x y,
      snd s !! c = Some r /\
      PerceptibleMovementCheck.last_location (MovingMap.perceptible (fst s))
        = Some l /\
      lon l = Some x /\ lat l = Some y /\
      tiles_of r = Some (view_at (fst s) x y).

(** The cached raster carries the marker under its crop. *)
Definition marked (s : MovingMap.t * list Raster) : Prop :=
  forall c,
    MovingMap.cached (fst s) = Some c ->
    exists r, snd s !! c = Some r /\ marked_before_crop r = true.

(** The states that follow a state [s] while the position stays where it
    is: draw calls at [location], with any heading and any destination of
    the store, and in between the changes of the rest of the program, as
    in [MovingMap.reachable]. *)
Inductive stays `{Externals} (location : Point)
  : MovingMap.t * list Raster -> MovingMap.t * list Raster -> Prop :=
| stays_here s : stays location s s
| stays_draw s s' image azimuth o s'' :
    stays location s s' ->
    (image < length (snd s'))%nat ->
    MovingMap.draw image location azimuth s' = (o, s'') ->
    stays location s s''
| stays_others s self w w' :
    stays location s (self, w) ->
    (length w <= length w')%nat ->
    (forall c, MovingMap.cached self = Some c -> w' !! c = w !! c) ->
    stays location s (self, w').

End Frames.

(* ------------------------------------------------------------------ *)
(** * The journey map's view *)

Module Backdrop.

(** The view of the journey's bounding box at the widget's size, as the
    library builds it, if it does. *)
Definition extent_view `{Externals} (self : JourneyMap.t)
  : Outcome geotiler.Map :=
  match bounding_box (JourneyMap.timeseries self) with
  | Returns bbox =>
      Map_extent
        (lon (fst bbox), lat (fst bbox), lon (snd bbox), lat (snd bbox))
        (JourneyMap.size self, JourneyMap.size self)
  | Raises e => Raises e
  end.

(** The view [JourneyMap._init_maybe] keeps in [self.map]: the view of the
    bounding box, its zoom brought down to 18 when it is above. *)
Definition view `{Externals} (self : JourneyMap.t) : Outcome geotiler.Map :=
  match extent_view self with
  | Returns m => Returns (JourneyMap.capped m)
  | Raises e => Raises e
  end.

End Backdrop.

(* ------------------------------------------------------------------ *)
(** * build-scripts/generate-examples.py *)

(** The helper functions of the script that builds the example pages.
    The strings of this model are the Python strings whose characters
    have code points below 256 (ASCII and Latin-1): on such strings the
    only characters that [int] reads as decimal digits are ['0'] to
    ['9'].  Strings with decimal digits of other scripts are outside the
    model. *)
Module generate_examples.

(** [c] is matched by the pattern [[0-9]]. *)
Definition is_digit (c : ascii) : bool :=
  let n := nat_of_ascii c in (48 <=? n)%nat && (n <=? 57)%nat.

Definition digit_value (c : ascii) : Z := Z.of_nat (nat_of_ascii c) - 48.

(** The number a run of digits writes, leading zeros allowed. *)
Definition decimal (d : list ascii) : Z :=
  fold_left (fun acc c => acc * 10 + digit_value c) d 0.

(** The builtin [int] on the strings of the model, [None] when it raises.
    What the program relies on: a run of digits is read as the number it
    writes (runs of up to 640 digits are below every limit Python can put
    on the conversion), and a string without any of the digits ['0'] to
    ['9'] is refused, as it is when all its code points are below 256. *)
Class Builtins : Type := {
  int_of_str : list ascii -> option Z;
  int_of_digits :
    forall d : list ascii,
      d <> [] -> forallb is_digit d = true -> (length d <= 640)%nat ->
      int_of_str d = Some (decimal d);
  int_without_digit :
    forall t : list ascii, existsb is_digit t = false -> int_of_str t = None
}.

(** The elements of a key: numbers and strings. *)
Inductive Chunk : Type :=
| Int (z : Z)
| Str (s : list ascii).

Global Instance chunk_eq_dec : EqDecision Chunk.
Proof. solve_decision. Defined.

(** [tryint(s)]: [int(s)], or [s] itself when that raises. *)
Definition tryint `{Builtins} (s : list ascii) : Chunk :=
  match int_of_str s with
  | Some z => Int z
  | None => Str s
  end.

(** What one more character in front does to the result of the split. *)
Definition push (c : ascii) (chunks : list (list ascii))
  : list (list ascii) :=
  match chunks with
  | t0 :: more =>
      if is_digit c then
        match t0, more with
        | [], d :: more' => [] :: (c :: d) :: more'
        | _, _ => [] :: [c] :: t0 :: more
        end
      else (c :: t0) :: more
  | [] => [[c]]
  end.

(** [re.split(r'([0-9]+)', s)]: the text before the first run of digits,
    then each run followed by the text after it; the texts at both ends
    may be empty. *)
Fixpoint re_split (s : list ascii) : list (list ascii) :=
  match s with
  | [] => [[]]
  | c :: rest => push c (re_split rest)
  end.

(** [alphanum_key(s)] *)
Definition alphanum_key `{Builtins} (s : list ascii) : list Chunk :=
  map tryint (re_split s).

(** [a < b] on strings: by code point, the shorter first on a tie. *)
Fixpoint str_lt (a b : list ascii) : bool :=
  match a, b with
  | _, [] => false
  | [], _ :: _ => true
  | x :: a', y :: b' =>
      if (nat_of_ascii x <? nat_of_ascii y)%nat then true
      else if (nat_of_ascii y <? nat_of_ascii x)%nat then false
      else str_lt a' b'
  end.

(** [x == y] on the elements of a key: a number never equals a string. *)
Definition chunk_eq (x y : Chunk) : bool := bool_decide (x = y).

(** [x < y] on the elements of a key: a number and a string do not
    compare. *)
Definition chunk_lt (x y : Chunk) : Outcome bool :=
  match x, y with
  | Int a, Int b => Returns (a <? b)
  | Str a, Str b => Returns (str_lt a b)
  | _, _ => Raises TypeError
  end.

(** [a < b] on lists, as [sorted] compares keys: the first pair of
    elements that are not equal decides, and without one the lengths. *)
Fixpoint list_lt (a b : list Chunk) : Outcome bool :=
  match a, b with
  | [], [] => Returns false
  | [], _ :: _ => Returns true
  | _ :: _, [] => Returns false
  | x :: a', y :: b' =>
      if chunk_eq x y then list_lt a' b' else chunk_lt x y
  end.

(** [Dimension(x, y)] of [gopro_overlay.dimensions]: the two numbers it
    is made of. *)
Record Dimension : Type := mkDimension { x : Z; y : Z }.

Definition sep : ascii := "/"%char.

Definition is_sep (c : ascii) : bool := bool_decide (c = sep).

(** [os.path.basename(p)]: what follows the last ['/']. *)
Fixpoint basename_from (current p : list ascii) : list ascii :=
  match p with
  | [] => current
  | c :: rest =>
      if is_sep c then basename_from [] rest
      else basename_from (current ++ [c]) rest
  end.

Definition basename (p : list ascii) : list ascii := basename_from [] p.

(** [os.path.join(a, b)] *)
Definition join (a b : list ascii) : list ascii :=
  if match b with c :: _ => is_sep c | [] => false end then b
  else if match last a with Some e => is_sep e | None => true end
       then a ++ b
       else a ++ sep :: b.

Definition dimensions_by_file : gmap (list ascii) Dimension :=
  {[ list_ascii_of_string "01-simple-text.xml" := mkDimension 100 100 ]}.

(** [dimensions_for(filepath)] *)
Definition dimensions_for (filepath : list ascii) : Dimension :=
  default (mkDimension 200 100) (dimensions_by_file !! basename filepath).

(** The lists the split returns: texts without digits and non-empty
    runs of digits take turns, a text comes first and last, and a text
    between two runs is not empty. *)
Inductive alternating : list (list ascii) -> Prop :=
| alt_end (t : list ascii) :
    existsb is_digit t = false -> alternating [t]
| alt_run (t d : list ascii) (rest : list (list ascii)) :
    existsb is_digit t = false ->
    d <> [] -> forallb is_digit d = true ->
    alternating rest ->
    (forall t' d' rest', rest = t' :: d' :: rest' -> t' <> []) ->
    alternating (t :: d :: rest).

(** Keys whose elements are in turn strings and numbers; [number_first]
    tells which of the two the first element is. *)
Fixpoint typed (number_first : bool) (key : list Chunk) : Prop :=
  match key with
  | [] => True
  | Int _ :: key' => number_first = true /\ typed false key'
  | Str _ :: key' => number_first = false /\ typed true key'
  end.

(** [p] does not end with a digit. *)
Fixpoint ends_with_text (p : list ascii) : bool :=
  match p with
  | [] => true
  | [c] => negb (is_digit c)
  | _ :: p' => ends_with_text p'
  end.

(** [r] does not start with a digit. *)
Definition starts_with_text (r : list ascii) : bool :=
  match r with
  | [] => true
  | c :: _ => negb (is_digit c)
  end.

(** An [int] that reads runs of digits and nothing else. *)
Definition digits_only (s : list ascii) : option Z :=
  match s with
  | [] => None
  | _ :: _ => if forallb is_digit s then Some (decimal s) else None
  end.

End generate_examples.

(* ================================================================== *)
(** * Properties *)

(* ------------------------------------------------------------------ *)
(** ** Python arithmetic *)

Lemma ltb_lt (x y : Q) : Py.ltb x y = true <-> (x < y)%Q.
Proof. unfold Py.ltb, Qlt. apply Z.ltb_lt. Qed.

Lemma ltb_ge (x y : Q) : Py.ltb x y = false <-> (y <= x)%Q.
Proof. unfold Py.ltb, Qle. apply Z.ltb_ge. Qed.

Lemma ltb_irrefl_eq (x y : Q) : (x == y)%Q -> Py.ltb x y = false.
Proof. intros E. apply ltb_ge. rewrite E. apply Qle_refl. Qed.

Lemma int_floor (x : Q) : (0 <= x)%Q -> Py.int x = Qfloor x.
Proof.
  destruct x as [n d]. unfold Qle, Py.int, Qfloor. simpl. intros Hn.
  apply Z.quot_div_nonneg; lia.
Qed.

(* ------------------------------------------------------------------ *)
(** ** Binary64 arithmetic *)

(** Rounding to the nearest integer. *)

Lemma floor_unique (q : Q) (k : Z) :
  (inject_Z k <= q)%Q -> (q < inject_Z (k + 1))%Q -> Qfloor q = k.
Proof.
  intros Hlo Hhi.
  assert (H1 : k <= Qfloor q).
  { rewrite <- (Qfloor_Z k). apply Qfloor_resp_le. exact Hlo. }
  assert (H2 : Qfloor q < k + 1).
  { rewrite Zlt_Qlt. eapply Qle_lt_trans; [apply Qfloor_le|exact Hhi]. }
  lia.
Qed.

Lemma round_monotone (x y : Q) : (x <= y)%Q -> Py.round x <= Py.round y.
Proof.
  intros Hxy. unfold Py.round.
  pose proof (Qfloor_resp_le x y Hxy) as Hf.
  pose proof (Qfloor_le x) as Hx0. pose proof (Qlt_floor x) as Hx1.
  pose proof (Qfloor_le y) as Hy0. pose proof (Qlt_floor y) as Hy1.
  rewrite inject_Z_plus in Hx1, Hy1.
  change (inject_Z 1) with 1%Q in Hx1, Hy1.
  destruct (Z.eq_dec (Qfloor x) (Qfloor y)) as [E|Hne].
  - rewrite <- E in *. clear E Hf.
    set (f := Qfloor x) in *.
    destruct (Py.ltb (2 * (x - inject_Z f)) 1) eqn:X1;
      destruct (Py.ltb (2 * (y - inject_Z f)) 1) eqn:Y1;
      try apply ltb_lt in X1; try apply ltb_ge in X1;
      try apply ltb_lt in Y1; try apply ltb_ge in Y1;
      try lia.
    + destruct (Py.ltb 1 (2 * (y - inject_Z f))), (Z.even f); lia.
    + exfalso. Lqa.lra.
    + destruct (Py.ltb 1 (2 * (x - inject_Z f))) eqn:X2;
        destruct (Py.ltb 1 (2 * (y - inject_Z f))) eqn:Y2;
        try apply ltb_lt in X2; try apply ltb_ge in X2;
        try apply ltb_lt in Y2; try apply ltb_ge in Y2.
      * lia.
      * exfalso. Lqa.lra.
      * destruct (Z.even f); lia.
      * destruct (Z.even f); lia.
  - assert (Hlt : Qfloor x + 1 <= Qfloor y) by lia.
    destruct (Py.ltb (2 * (x - inject_Z (Qfloor x))) 1),
      (Py.ltb 1 (2 * (x - inject_Z (Qfloor x)))), (Z.even (Qfloor x)),
      (Py.ltb (2 * (y - inject_Z (Qfloor y))) 1),
      (Py.ltb 1 (2 * (y - inject_Z (Qfloor y)))), (Z.even (Qfloor y)); lia.
Qed.

Lemma round_comp (x y : Q) : (x == y)%Q -> Py.round x = Py.round y.
Proof.
  intros E.
  assert (H1 : (x <= y)%Q) by (rewrite E; apply Qle_refl).
  assert (H2 : (y <= x)%Q) by (rewrite E; apply Qle_refl).
  apply round_monotone in H1, H2. lia.
Qed.

Lemma round_inject (z : Z) : Py.round (inject_Z z) = z.
Proof.
  unfold Py.round. rewrite Qfloor_Z.
  assert (H : Py.ltb (2 * (inject_Z z - inject_Z z)) 1 = true)
    by (apply ltb_lt; Lqa.lra).
  rewrite H. reflexivity.
Qed.

(** Powers of two. *)

Lemma pow2_pos (z : Z) : (0 < Binary64.pow2 z)%Q.
Proof. apply Qpower_0_lt. reflexivity. Qed.

Lemma pow2_add (a b : Z) :
  (Binary64.pow2 (a + b) == Binary64.pow2 a * Binary64.pow2 b)%Q.
Proof. apply Qpower_plus. discriminate. Qed.

Lemma pow2_le (a b : Z) : a <= b -> (Binary64.pow2 a <= Binary64.pow2 b)%Q.
Proof. intros H. apply Qpower_le_compat_l; [exact H|discriminate]. Qed.

Lemma pow2_Z (a : Z) : 0 <= a -> (Binary64.pow2 a == inject_Z (2 ^ a))%Q.
Proof. intros H. symmetry. apply Zpower_Qpower. exact H. Qed.

Lemma pow2_cancel (q : Q) (a : Z) :
  (q * Binary64.pow2 a * Binary64.pow2 (- a) == q)%Q.
Proof.
  rewrite <- Qmult_assoc, <- pow2_add.
  replace (a + - a) with 0 by lia. change (Binary64.pow2 0) with 1%Q. ring.
Qed.

Lemma pow2_cancel' (q : Q) (a : Z) :
  (q * Binary64.pow2 (- a) * Binary64.pow2 a == q)%Q.
Proof.
  rewrite <- Qmult_assoc, <- pow2_add.
  replace (- a + a) with 0 by lia. change (Binary64.pow2 0) with 1%Q. ring.
Qed.

(** The binary exponent. *)

Lemma log2_spec (q : Q) :
  (0 < q)%Q ->
  (Binary64.pow2 (Binary64.log2 q) <= q)%Q /\
  (q < Binary64.pow2 (Binary64.log2 q + 1))%Q.
Proof.
  intros Hq. destruct q as [n d].
  assert (Hn : 0 < n) by (unfold Qlt in Hq; simpl in Hq; lia).
  unfold Binary64.log2. cbn [Qnum Qden].
  set (a := Z.log2 n). set (b := Z.log2 (Z.pos d)).
  assert (Ha : 0 <= a) by apply Z.log2_nonneg.
  assert (Hb : 0 <= b) by apply Z.log2_nonneg.
  destruct (Z.log2_spec n Hn) as [Ha0 Ha1]. fold a in Ha0, Ha1.
  destruct (Z.log2_spec (Z.pos d) ltac:(lia)) as [Hb0 Hb1].
  fold b in Hb0, Hb1.
  rewrite Zle_Qle, <- pow2_Z in Ha0, Hb0 by lia.
  rewrite Zlt_Qlt, <- pow2_Z in Ha1, Hb1 by lia.
  set (q := n # d) in *.
  assert (Hd : (0 < inject_Z (Z.pos d))%Q) by reflexivity.
  assert (Hqd : (q * inject_Z (Z.pos d) == inject_Z n)%Q).
  { unfold q, Qeq, inject_Z. simpl. lia. }
  assert (Hlow : (Binary64.pow2 (a - b - 1) < q)%Q).
  { apply (Qmult_lt_r _ _ _ Hd). rewrite Hqd.
    apply Qlt_le_trans
      with (Binary64.pow2 (a - b - 1) * Binary64.pow2 (Z.succ b))%Q.
    - apply Qmult_lt_l; [apply pow2_pos|exact Hb1].
    - rewrite <- pow2_add. replace (a - b - 1 + Z.succ b) with a by lia.
      exact Ha0. }
  assert (Hhigh : (q < Binary64.pow2 (a - b + 1))%Q).
  { apply (Qmult_lt_r _ _ _ Hd). rewrite Hqd.
    apply Qlt_le_trans with (Binary64.pow2 (a - b + 1) * Binary64.pow2 b)%Q.
    - rewrite <- pow2_add. replace (a - b + 1 + b) with (Z.succ a) by lia.
      exact Ha1.
    - apply Qmult_le_l; [apply pow2_pos|exact Hb0]. }
  destruct (Py.ltb q (Binary64.pow2 (a - b))) eqn:E.
  - apply ltb_lt in E. split; [apply Qlt_le_weak; exact Hlow|].
    replace (a - b - 1 + 1) with (a - b) by lia. exact E.
  - apply ltb_ge in E. split; [exact E|exact Hhigh].
Qed.

Lemma log2_unique (q : Q) (e : Z) :
  (Binary64.pow2 e <= q)%Q -> (q < Binary64.pow2 (e + 1))%Q ->
  Binary64.log2 q = e.
Proof.
  intros Hlo Hhi.
  assert (Hq : (0 < q)%Q) by (eapply Qlt_le_trans; [apply pow2_pos|exact Hlo]).
  destruct (log2_spec q Hq) as [Slo Shi].
  destruct (Z.lt_trichotomy (Binary64.log2 q) e) as [Hlt|[E|Hgt]]; [|exact E|].
  - exfalso. apply (Qlt_irrefl q).
    eapply Qlt_le_trans; [exact Shi|].
    eapply Qle_trans; [apply (pow2_le _ e); lia|exact Hlo].
  - exfalso. apply (Qlt_irrefl q).
    eapply Qlt_le_trans; [exact Hhi|].
    eapply Qle_trans; [apply (pow2_le _ (Binary64.log2 q)); lia|exact Slo].
Qed.

Lemma log2_monotone (x y : Q) :
  (0 < x)%Q -> (x <= y)%Q -> Binary64.log2 x <= Binary64.log2 y.
Proof.
  intros Hx Hxy.
  assert (Hy : (0 < y)%Q) by (eapply Qlt_le_trans; eassumption).
  destruct (log2_spec x Hx) as [Xlo _].
  destruct (log2_spec y Hy) as [_ Yhi].
  destruct (Z_le_gt_dec (Binary64.log2 x) (Binary64.log2 y)) as [Hle|Hgt];
    [exact Hle|].
  exfalso. apply (Qlt_irrefl y).
  eapply Qlt_le_trans; [exact Yhi|].
  eapply Qle_trans; [apply (pow2_le _ (Binary64.log2 x)); lia|].
  eapply Qle_trans; eassumption.
Qed.

Lemma log2_inject (z : Z) : 0 < z -> Binary64.log2 (inject_Z z) = Z.log2 z.
Proof.
  intros Hz. destruct (Z.log2_spec z Hz) as [H0 H1].
  pose proof (Z.log2_nonneg z).
  apply log2_unique.
  - rewrite pow2_Z by lia. rewrite <- Zle_Qle. exact H0.
  - rewrite pow2_Z by lia. rewrite <- Zlt_Qlt. exact H1.
Qed.

(** Rounding to binary64. *)

Lemma nearest_nonneg (q : Q) : (0 < q)%Q -> (0 <= Binary64.nearest q)%Q.
Proof.
  intros Hq. unfold Binary64.nearest. rewrite Qred_correct.
  apply Qmult_le_0_compat; [|apply Qlt_le_weak, pow2_pos].
  change 0%Q with (inject_Z 0). rewrite <- Zle_Qle.
  rewrite <- (round_inject 0). apply round_monotone.
  apply Qmult_le_0_compat; apply Qlt_le_weak; [exact Hq|apply pow2_pos].
Qed.

Lemma nearest_monotone (x y : Q) :
  (0 < x)%Q -> (x <= y)%Q -> (Binary64.nearest x <= Binary64.nearest y)%Q.
Proof.
  intros Hx Hxy.
  assert (Hy : (0 < y)%Q) by (eapply Qlt_le_trans; eassumption).
  pose proof (log2_monotone x y Hx Hxy) as Hlog.
  unfold Binary64.nearest. rewrite !Qred_correct. unfold Binary64.exponent.
  set (ex := Z.max (Binary64.log2 x) (-1022)).
  set (ey := Z.max (Binary64.log2 y) (-1022)).
  assert (Hexy : ex <= ey) by lia.
  destruct (Z.eq_dec ex ey) as [E|Hne].
  - rewrite <- E. apply Qmult_le_compat_r; [|apply Qlt_le_weak, pow2_pos].
    rewrite <- Zle_Qle. apply round_monotone.
    apply Qmult_le_compat_r; [exact Hxy|apply Qlt_le_weak, pow2_pos].
  - destruct (log2_spec x Hx) as [_ Xhi].
    destruct (log2_spec y Hy) as [Ylo _].
    assert (Ey : ey = Binary64.log2 y) by lia.
    apply Qle_trans with (Binary64.pow2 (ex + 1)).
    + apply Qle_trans with (inject_Z (2 ^ 53) * Binary64.pow2 (ex - 52))%Q.
      * apply Qmult_le_compat_r; [|apply Qlt_le_weak, pow2_pos].
        rewrite <- Zle_Qle. rewrite <- (round_inject (2 ^ 53)).
        apply round_monotone. rewrite <- pow2_Z by lia.
        replace 53 with (ex + 1 + (52 - ex)) by lia. rewrite pow2_add.
        apply Qmult_le_compat_r; [|apply Qlt_le_weak, pow2_pos].
        apply Qlt_le_weak. eapply Qlt_le_trans; [exact Xhi|].
        apply pow2_le. lia.
      * rewrite <- pow2_Z, <- pow2_add by lia.
        replace (53 + (ex - 52)) with (ex + 1) by lia. apply Qle_refl.
    + apply Qle_trans with (Binary64.pow2 ey); [apply pow2_le; lia|].
      apply Qle_trans with (inject_Z (2 ^ 52) * Binary64.pow2 (ey - 52))%Q.
      * rewrite <- pow2_Z, <- pow2_add by lia.
        replace (52 + (ey - 52)) with ey by lia. apply Qle_refl.
      * apply Qmult_le_compat_r; [|apply Qlt_le_weak, pow2_pos].
        rewrite <- Zle_Qle. rewrite <- (round_inject (2 ^ 52)).
        apply round_monotone. rewrite <- pow2_Z by lia.
        replace 52 with (ey + (52 - ey)) at 1 by lia. rewrite pow2_add.
        apply Qmult_le_compat_r; [|apply Qlt_le_weak, pow2_pos].
        rewrite Ey. exact Ylo.
Qed.

(** Rounding keeps the order. *)
Lemma fl_monotone (x y : Q) : (x <= y)%Q -> (Binary64.fl x <= Binary64.fl y)%Q.
Proof.
  intros Hxy. unfold Binary64.fl.
  destruct x as [[|nx|nx] dx], y as [[|ny|ny] dy]; cbn [Qnum];
    try (exfalso; unfold Qle in Hxy; simpl in Hxy; lia).
  - apply Qle_refl.
  - apply nearest_nonneg. reflexivity.
  - apply nearest_monotone; [reflexivity|exact Hxy].
  - apply (Qopp_le_compat 0). apply nearest_nonneg. reflexivity.
  - apply Qle_trans with 0%Q.
    + apply (Qopp_le_compat 0). apply nearest_nonneg. reflexivity.
    + apply nearest_nonneg. reflexivity.
  - apply Qopp_le_compat. apply nearest_monotone; [reflexivity|].
    apply Qopp_le_compat. exact Hxy.
Qed.

(** The integers up to 2^53 are binary64 numbers. *)
Lemma fl_inject (z : Z) :
  0 <= z < 2 ^ 53 -> Binary64.fl (inject_Z z) = inject_Z z.
Proof.
  intros [H0 H1]. destruct z as [|p|p]; [reflexivity| |lia].
  unfold Binary64.fl. cbn [Qnum inject_Z].
  change (Z.pos p # 1) with (inject_Z (Z.pos p)).
  set (z := Z.pos p) in *.
  assert (Hz : 0 < z) by reflexivity.
  unfold Binary64.nearest, Binary64.exponent. rewrite (log2_inject z Hz).
  pose proof (Z.log2_nonneg z) as Hl0.
  assert (Hl1 : Z.log2 z < 53) by (apply Z.log2_lt_pow2; assumption).
  replace (Z.max (Z.log2 z) (-1022)) with (Z.log2 z) by lia.
  set (e := Z.log2 z) in *.
  assert (Hr : Py.round (inject_Z z * Binary64.pow2 (52 - e))
               = z * 2 ^ (52 - e)).
  { rewrite <- (round_inject (z * 2 ^ (52 - e))). apply round_comp.
    rewrite inject_Z_mult, <- pow2_Z by lia. reflexivity. }
  rewrite Hr. rewrite <- (inject_Z_Qred z). apply Qred_complete.
  rewrite inject_Z_mult, <- pow2_Z by lia.
  replace (e - 52) with (- (52 - e)) by lia. apply pow2_cancel.
Qed.

(** A number between two consecutive small integers stays between them. *)
Lemma fl_between (q : Q) (k : Z) :
  0 <= k -> k + 1 < 2 ^ 53 ->
  (inject_Z k <= q)%Q -> (q <= inject_Z (k + 1))%Q ->
  (inject_Z k <= Binary64.fl q)%Q /\ (Binary64.fl q <= inject_Z (k + 1))%Q.
Proof.
  intros H0 H1 Hlo Hhi.
  rewrite <- (fl_inject k), <- (fl_inject (k + 1)) by lia.
  split; apply fl_monotone; assumption.
Qed.

(** On the integers below 2^52, truncating the binary64 square root gives
    the integer square root: rounding never reaches the next integer. *)
Lemma sqrt_inject (n : Z) :
  0 < n < 2 ^ 52 -> Py.int (Binary64.sqrt (inject_Z n)) = Z.sqrt n.
Proof.
  intros [Hn0 Hn1]. destruct n as [|p|p]; [lia| |lia].
  unfold Binary64.sqrt. cbn [Qnum inject_Z].
  change (Z.pos p # 1) with (inject_Z (Z.pos p)).
  set (n := Z.pos p) in *.
  rewrite (log2_inject n Hn0).
  pose proof (Z.log2_nonneg n) as Hl0.
  assert (Hl1 : Z.log2 n < 52) by (apply Z.log2_lt_pow2; assumption).
  set (e := Z.log2 n / 2).
  assert (He : 0 <= e <= 25).
  { unfold e. split; [apply Z.div_pos; lia|].
    apply Z.lt_succ_r. apply Z.div_lt_upper_bound; lia. }
  set (s := 52 - e).
  assert (Hs : 27 <= s) by (unfold s; lia).
  replace (e - 52) with (- s) by (unfold s; lia).
  set (T := 2 ^ s).
  assert (HT : 2 ^ 27 <= T) by (apply Z.pow_le_mono_r; lia).
  set (Y := n * (T * T)).
  assert (Hy : (inject_Z n * Binary64.pow2 (2 * s) == inject_Z Y)%Q).
  { unfold Y, T. rewrite <- Z.pow_add_r by lia.
    rewrite inject_Z_mult, <- pow2_Z by lia.
    replace (s + s) with (2 * s) by lia. reflexivity. }
  rewrite (Qfloor_comp _ _ Hy), Qfloor_Z.
  set (k := Z.sqrt n). set (m := Z.sqrt Y).
  assert (HY : 0 <= Y) by (unfold Y; nia).
  assert (Hk : 0 <= k) by apply Z.sqrt_nonneg.
  assert (Hm : 0 <= m) by apply Z.sqrt_nonneg.
  pose proof (Z.sqrt_spec n ltac:(lia)) as Sk. cbv zeta in Sk. fold k in Sk.
  pose proof (Z.sqrt_spec Y HY) as Sm. cbv zeta in Sm. fold m in Sm.
  assert (Hk1 : k + 1 <= 2 ^ 26) by nia.
  assert (Hlow : k * T <= m).
  { apply Z.sqrt_le_square; [exact HY|nia|]. unfold Y. nia. }
  assert (Hhigh : m < (k + 1) * T).
  { apply Z.sqrt_lt_square; [exact HY|nia|]. unfold Y. nia. }
  set (m' := if Py.ltb _ _ then m else _).
  assert (Hm' : k * T <= m' < (k + 1) * T).
  { assert (Hup : Py.ltb (inject_Z n * Binary64.pow2 (2 * s))
                    (inject_Z (m * m + m) + (1 # 4)) = false ->
                  m + 1 < (k + 1) * T).
    { intros E. apply ltb_ge in E. rewrite Hy in E.
      assert (HYm : m * m + m < Y).
      { rewrite Zlt_Qlt. eapply Qlt_le_trans; [|exact E].
        rewrite <- (Qplus_0_r (inject_Z (m * m + m))) at 1.
        apply Qplus_lt_r. reflexivity. }
      assert (HYK : Y <= (k + 1) * T * ((k + 1) * T) - T * T)
        by (unfold Y; nia).
      nia. }
    unfold m'.
    destruct (Py.ltb (inject_Z n * Binary64.pow2 (2 * s))
                (inject_Z (m * m + m) + (1 # 4))); [lia|].
    specialize (Hup eq_refl).
    destruct (Py.ltb _ _), (Z.even m); lia. }
  clearbody m'.
  assert (Hpos : (0 < Binary64.pow2 s)%Q) by apply pow2_pos.
  assert (Hval : forall z : Z,
             (inject_Z (z * T) == inject_Z z * Binary64.pow2 s)%Q).
  { intros z. unfold T. rewrite inject_Z_mult, <- pow2_Z by lia.
    reflexivity. }
  assert (Hlo : (inject_Z k <= inject_Z m' * Binary64.pow2 (- s))%Q).
  { apply (Qmult_le_r _ _ _ Hpos). rewrite pow2_cancel', <- Hval.
    rewrite <- Zle_Qle. lia. }
  assert (Hhi : (inject_Z m' * Binary64.pow2 (- s) < inject_Z (k + 1))%Q).
  { apply (Qmult_lt_r _ _ _ Hpos). rewrite pow2_cancel', <- Hval.
    rewrite <- Zlt_Qlt. lia. }
  rewrite int_floor.
  - rewrite (Qfloor_comp _ _ (Qred_correct _)).
    apply floor_unique; assumption.
  - rewrite Qred_correct. eapply Qle_trans; [|exact Hlo].
    change 0%Q with (inject_Z 0). rewrite <- Zle_Qle. exact Hk.
Qed.

(* ------------------------------------------------------------------ *)
(** ** Squares and the square root of two *)

(** Twice a square is never a square, except at zero. *)
Lemma twice_square_not_square (s : Z) :
  0 < s -> forall h : Z, h * h <> 2 * (s * s).
Proof.
  assert (Hall : forall s, 0 <= s -> 0 < s -> forall h, h * h <> 2 * (s * s)).
  { apply (Z_lt_induction
             (fun s => 0 < s -> forall h : Z, h * h <> 2 * (s * s))).
    intros n IH Hn h E.
    destruct (Z.Even_or_Odd h) as [[k Hk]|[k Hk]]; [|lia].
    destruct (Z.Even_or_Odd n) as [[j Hj]|[j Hj]]; [|nia].
    apply (IH j ltac:(lia) ltac:(lia) k). nia. }
  intros Hs. apply Hall; lia.
Qed.

(** Up to 2^52 the doubled square is a binary64 number and the square
    root does not round up to the next integer: the render dimension is
    the integer square root. *)
Lemma hypotenuse_exact (size : Z) :
  0 < size -> 2 * size ^ 2 < 2 ^ 52 ->
  MovingMap.hypotenuse_of size = Z.sqrt (2 * (size * size)).
Proof.
  intros Hs Hb. rewrite Z.pow_2_r in Hb.
  unfold MovingMap.hypotenuse_of, Binary64.of_int.
  replace (size ^ 2 * 2) with (2 * (size * size)) by ring.
  rewrite fl_inject by lia. apply sqrt_inject. nia.
Qed.

Lemma hypotenuse_square (size : Z) :
  0 < size -> 2 * size ^ 2 < 2 ^ 52 ->
  let h := MovingMap.hypotenuse_of size in
  0 <= h /\ h * h <= 2 * (size * size) < (h + 1) * (h + 1).
Proof.
  intros Hs Hb. rewrite (hypotenuse_exact size Hs Hb).
  assert (Hn : 0 <= 2 * (size * size)) by nia.
  pose proof (Z.sqrt_spec _ Hn) as Hsq. cbv zeta in Hsq.
  pose proof (Z.sqrt_nonneg (2 * (size * size))).
  cbv zeta. lia.
Qed.

Lemma hypotenuse_below (size : Z) :
  0 < size -> 2 * size ^ 2 < 2 ^ 52 ->
  let h := MovingMap.hypotenuse_of size in
  size <= h /\ h * h < 2 * (size * size).
Proof.
  intros Hs Hb h. destruct (hypotenuse_square size Hs Hb) as [H0 [Hle Hlt]].
  fold h in H0, Hle, Hlt. split.
  - nia.
  - pose proof (twice_square_not_square size Hs h). lia.
Qed.

(** Comparing with [sqrt 2 * s] is comparing squares. *)
Lemma below_sqrt2 (h s : Z) :
  0 <= h -> 0 <= s -> h * h < 2 * (s * s) -> (IZR h < sqrt 2 * IZR s)%R.
Proof.
  intros Hh Hs Hlt.
  assert (H2 : (sqrt 2 * sqrt 2 = 2)%R) by (apply sqrt_sqrt; Lra.lra).
  pose proof (sqrt_pos 2) as Hp.
  apply IZR_le in Hh, Hs. apply IZR_lt in Hlt.
  rewrite !mult_IZR in Hlt.
  destruct (Rlt_or_le (IZR h) (sqrt 2 * IZR s)) as [|Hge]; [assumption|].
  exfalso.
  assert ((sqrt 2 * IZR s) * (sqrt 2 * IZR s) <= IZR h * IZR h)%R.
  { apply Rmult_le_compat; try assumption; apply Rmult_le_pos; assumption. }
  Lra.nra.
Qed.

Lemma above_sqrt2 (h s : Z) :
  0 <= h -> 0 <= s -> 2 * (s * s) < h * h -> (sqrt 2 * IZR s < IZR h)%R.
Proof.
  intros Hh Hs Hlt.
  assert (H2 : (sqrt 2 * sqrt 2 = 2)%R) by (apply sqrt_sqrt; Lra.lra).
  pose proof (sqrt_pos 2) as Hp.
  apply IZR_le in Hh, Hs. apply IZR_lt in Hlt.
  rewrite !mult_IZR in Hlt.
  destruct (Rlt_or_le (sqrt 2 * IZR s) (IZR h)) as [|Hge]; [assumption|].
  exfalso.
  assert (IZR h * IZR h <= (sqrt 2 * IZR s) * (sqrt 2 * IZR s))%R.
  { apply Rmult_le_compat; assumption. }
  Lra.nra.
Qed.

(* ------------------------------------------------------------------ *)
(** ** The oversized render dimension *)

(** C1, as stated, fails: for the default size 256 the moving map renders
    at 362 pixels, which is below 256 * sqrt 2 and is not
    ceil(sqrt 2 * 256) = 363. *)
Lemma hypotenuse_256_is_not_the_ceiling :
  let h := MovingMap.hypotenuse (Sample.moving (1 # 4)) in
  h = 362 /\
  ~ Described.is_ceil (sqrt 2 * IZR 256) h /\
  ~ (IZR 256 * sqrt 2 <= IZR h)%R /\
  ~ Described.rotation_safe 256 h.
Proof.
  assert (E : MovingMap.hypotenuse (Sample.moving (1 # 4)) = 362)
    by (vm_compute; reflexivity).
  cbv zeta. rewrite E.
  assert (Hlt : (IZR 362 < sqrt 2 * IZR 256)%R)
    by (apply below_sqrt2; lia).
  split; [reflexivity|]. split; [|split].
  - intros [_ Hle]. Lra.lra.
  - intros Hge. Lra.lra.
  - intros [_ Hge]. Lra.lra.
Qed.

(** C1, amended: for every positive size whose doubled square is below
    2^52 the render dimension is int(sqrt(2 * size^2)), that is
    floor(sqrt 2 * size); it is strictly below size * sqrt 2 and at least
    size, and the crop rectangle is the centred size-by-size square, which
    lies inside the unrotated hypotenuse-by-hypotenuse raster. *)
Theorem hypotenuse_is_the_floor (at_ : Z * Z) (rotate : bool) (size zoom : Z)
  (corner_radius : option Z) (opacity : Q) :
  0 < size -> 2 * size ^ 2 < 2 ^ 52 ->
  let self := MovingMap.init at_ rotate size zoom corner_radius opacity in
  let h := MovingMap.hypotenuse self in
  h = Z.sqrt (2 * size ^ 2) /\
  Described.is_floor (sqrt 2 * IZR size) h /\
  Described.is_ceil (sqrt 2 * IZR size) (h + 1) /\
  (IZR h < IZR size * sqrt 2)%R /\
  size <= h /\
  (let '(x0, y0, x1, y1) := MovingMap.bounds self in
   x0 == y0 /\ x1 == y1 /\ x1 - x0 == inject_Z size /\
   x0 + x1 == inject_Z h /\ 0 <= x0 /\ x1 <= inject_Z h)%Q.
Proof.
  intros Hs Hbound self h.
  change h with (MovingMap.hypotenuse_of size).
  destruct (hypotenuse_square size Hs Hbound) as [H0 [Hle Hlt]].
  destruct (hypotenuse_below size Hs Hbound) as [Hsz Hstrict].
  pose proof (hypotenuse_exact size Hs Hbound) as Hexact.
  cbv zeta in *.
  set (k := MovingMap.hypotenuse_of size) in *.
  assert (Hb : (IZR k < sqrt 2 * IZR size)%R)
    by (apply below_sqrt2; lia).
  assert (Hq : (inject_Z size <= inject_Z k)%Q)
    by (rewrite <- Zle_Qle; exact Hsz).
  assert (Ha : (sqrt 2 * IZR size < IZR (k + 1))%R)
    by (apply above_sqrt2; lia).
  rewrite plus_IZR in Ha.
  split; [|split; [split|split; [split|split; [|split]]]].
  - rewrite Hexact, Z.pow_2_r. reflexivity.
  - Lra.lra.
  - exact Ha.
  - rewrite plus_IZR. Lra.lra.
  - rewrite plus_IZR. Lra.lra.
  - Lra.lra.
  - exact Hsz.
  - unfold self. cbn [MovingMap.bounds MovingMap.init]. fold k.
    split; [reflexivity|]. split; [reflexivity|].
    split; [field|]. split; [field|]. split.
    + unfold Qdiv. change (/ 2)%Q with (1 # 2)%Q. Lqa.lra.
    + unfold Qdiv. change (/ 2)%Q with (1 # 2)%Q. Lqa.lra.
Qed.

Lemma hypotenuse_is_the_floor_witness :
  0 < 256 /\ 2 * 256 ^ 2 < 2 ^ 52 /\
  Described.is_floor (sqrt 2 * IZR 256)
    (MovingMap.hypotenuse (MovingMap.init (10, 20) true 256 17 None (7 # 10))).
Proof.
  split; [lia|]. split; [lia|].
  apply (hypotenuse_is_the_floor (10, 20) true 256 17 None (7 # 10)); lia.
Defined.

(** Beyond that range the square root may round up to the next integer:
    at size 93222358 the render dimension is the ceiling of
    sqrt 2 * size, one above the integer square root. *)
Example hypotenuse_beyond_the_exact_range :
  2 ^ 52 < 2 * 93222358 ^ 2 /\
  MovingMap.hypotenuse_of 93222358 = 131836323 /\
  Z.sqrt (2 * 93222358 ^ 2) = 131836322.
Proof. split; [lia|]. split; vm_compute; reflexivity. Qed.

(* ------------------------------------------------------------------ *)
(** ** The perceptible movement check *)

Section Movement.

Context `{Externals}.

Import PerceptibleMovementCheck.

Variable map_ : geotiler.Map.

(** The first call accepts whatever it is given. *)
Lemma moved_first (location : Point) :
  moved map_ location init = (Returns true, mk (Some location)).
Proof. reflexivity. Qed.

(** A call with a stored position and a new one, both with coordinates. *)
Lemma moved_next (last location : Point) (lx ly px py : Q) :
  lon last = Some lx -> lat last = Some ly ->
  lon location = Some px -> lat location = Some py ->
  moved map_ location (mk (Some last)) =
    if Py.ltb (Qabs (lx - px)) (x_resolution map_)
       && Py.ltb (Qabs (ly - py)) (y_resolution map_)
    then (Returns false, mk (Some last))
    else (Returns true, mk (Some location)).
Proof.
  intros Hlx Hly Hpx Hpy.
  unfold moved, Py.bind, Py.gets, Py.lift, Py.modify, Py.ret, Py.sub.
  cbn [last_location]. rewrite Hlx, Hly, Hpx, Hpy.
  destruct (Py.ltb (Qabs (lx - px)) (x_resolution map_)
            && Py.ltb (Qabs (ly - py)) (y_resolution map_)); reflexivity.
Qed.

(** A call that meets a missing coordinate raises and changes nothing. *)
Lemma moved_raises (last location : Point) :
  has_fix last && has_fix location = false ->
  moved map_ location (mk (Some last)) = (Raises TypeError, mk (Some last)).
Proof.
  unfold has_fix, moved, Py.bind, Py.gets, Py.lift, Py.modify, Py.ret, Py.sub.
  cbn [last_location].
  destruct (lon last), (lat last), (lon location), (lat location);
    cbn [andb]; intros E; try discriminate E; reflexivity.
Qed.

(** C5: the check answers "not moved" only when a position is stored and
    both the longitude delta and the latitude delta are strictly below
    the per-axis resolution (and then it does); a delta equal to the
    resolution on either axis is answered "moved". *)
Theorem moved_rejects_only_below_resolution (self : t) (location : Point) :
  (fst (moved map_ location self) = Returns false ->
   exists last lx ly px py,
     last_location self = Some last /\
     lon last = Some lx /\ lat last = Some ly /\
     lon location = Some px /\ lat location = Some py /\
     (Qabs (lx - px) < x_resolution map_)%Q /\
     (Qabs (ly - py) < y_resolution map_)%Q) /\
  (forall last lx ly px py,
     last_location self = Some last ->
     lon last = Some lx -> lat last = Some ly ->
     lon location = Some px -> lat location = Some py ->
     ((Qabs (lx - px) < x_resolution map_)%Q /\
      (Qabs (ly - py) < y_resolution map_)%Q ->
      fst (moved map_ location self) = Returns false) /\
     ((Qabs (lx - px) == x_resolution map_)%Q \/
      (Qabs (ly - py) == y_resolution map_)%Q ->
      fst (moved map_ location self) = Returns true)).
Proof.
  destruct self as [[last|]]; split.
  - destruct (has_fix last && has_fix location) eqn:Hfix.
    + unfold has_fix in Hfix.
      destruct (lon last) as [lx|] eqn:Hlx; [|discriminate Hfix].
      destruct (lat last) as [ly|] eqn:Hly; [|discriminate Hfix].
      destruct (lon location) as [px|] eqn:Hpx; [|discriminate Hfix].
      destruct (lat location) as [py|] eqn:Hpy; [|discriminate Hfix].
      rewrite (moved_next last location lx ly px py) by assumption.
      destruct (Py.ltb (Qabs (lx - px)) (x_resolution map_)) eqn:Hx;
        [|discriminate].
      destruct (Py.ltb (Qabs (ly - py)) (y_resolution map_)) eqn:Hy;
        [|discriminate].
      intros _. exists last, lx, ly, px, py.
      apply ltb_lt in Hx, Hy. repeat split; reflexivity || assumption.
    + rewrite moved_raises by assumption. discriminate.
  - intros last' lx ly px py [= <-] Hlx Hly Hpx Hpy.
    rewrite (moved_next last location lx ly px py) by assumption.
    split.
    + intros [Hx Hy]. apply ltb_lt in Hx, Hy. rewrite Hx, Hy. reflexivity.
    + intros [E|E]; apply ltb_irrefl_eq in E; rewrite E;
        [|rewrite andb_false_r]; reflexivity.
  - rewrite moved_first. discriminate.
  - intros last lx ly px py [=].
Qed.

(** C7: a call that answers "not moved", and a call that raises, leave
    the stored position as it was; the only calls that overwrite it are
    those that answer "moved", and they store the new point. *)
Theorem moved_overwrites_only_when_moved (self : t) (location : Point) :
  match moved map_ location self with
  | (Returns true, self') => self' = mk (Some location)
  | (Returns false, self') => self' = self
  | (Raises _, self') => self' = self
  end.
Proof.
  destruct self as [[last|]]; [|reflexivity].
  destruct (has_fix last && has_fix location) eqn:Hfix.
  - unfold has_fix in Hfix.
    destruct (lon last) as [lx|] eqn:Hlx; [|discriminate Hfix].
    destruct (lat last) as [ly|] eqn:Hly; [|discriminate Hfix].
    destruct (lon location) as [px|] eqn:Hpx; [|discriminate Hfix].
    destruct (lat location) as [py|] eqn:Hpy; [|discriminate Hfix].
    rewrite (moved_next last location lx ly px py) by assumption.
    clear Hfix. destruct (_ && _); cbv beta iota; reflexivity.
  - rewrite moved_raises by assumption. cbv beta iota. reflexivity.
Qed.

(** C6, amended: for a point with both coordinates and a view whose
    resolution is positive on both axes, the first call on a fresh check
    answers "moved" and the second call with the same point and view
    answers "not moved". *)
Theorem moved_twice_same_point (location : Point) :
  has_fix location = true ->
  (0 < x_resolution map_)%Q -> (0 < y_resolution map_)%Q ->
  exists self',
    moved map_ location init = (Returns true, self') /\
    moved map_ location self' = (Returns false, self').
Proof.
  unfold has_fix. intros Hfix Hx Hy.
  destruct (lon location) as [px|] eqn:Hpx; [|discriminate Hfix].
  destruct (lat location) as [py|] eqn:Hpy; [|discriminate Hfix].
  exists (mk (Some location)). split; [reflexivity|].
  rewrite (moved_next location location px py px py) by assumption.
  assert (Zero : forall q : Q, (Qabs (q - q) == 0)%Q).
  { intros q. unfold Qminus. rewrite Qplus_opp_r. reflexivity. }
  assert (Hx' : Py.ltb (Qabs (px - px)) (x_resolution map_) = true)
    by (apply ltb_lt; rewrite Zero; exact Hx).
  assert (Hy' : Py.ltb (Qabs (py - py)) (y_resolution map_) = true)
    by (apply ltb_lt; rewrite Zero; exact Hy).
  rewrite Hx', Hy'. reflexivity.
Qed.

End Movement.

Lemma moved_rejects_only_below_resolution_witness :
  let self := PerceptibleMovementCheck.mk (Some (Sample.position 1 2)) in
  (exists last, PerceptibleMovementCheck.last_location self = Some last) /\
  fst (@PerceptibleMovementCheck.moved Sample.flat Sample.view
         (Sample.position (17 # 16) 2) self) = Returns true /\
  fst (@PerceptibleMovementCheck.moved Sample.flat Sample.view
         (Sample.position (33 # 32) 2) self) = Returns false.
Proof.
  intros self. split; [|split].
  - destruct (proj1 (@moved_rejects_only_below_resolution Sample.flat
                       Sample.view self (Sample.position (33 # 32) 2)))
      as [last [_ [_ [_ [_ [Hlast _]]]]]]; [reflexivity|].
    exists last. exact Hlast.
  - apply (proj2 (@moved_rejects_only_below_resolution Sample.flat
                    Sample.view self (Sample.position (17 # 16) 2))
             (Sample.position 1 2) 1%Q 2%Q (17 # 16)%Q 2%Q);
      try reflexivity.
    left. reflexivity.
  - apply (proj2 (@moved_rejects_only_below_resolution Sample.flat
                    Sample.view self (Sample.position (33 # 32) 2))
             (Sample.position 1 2) 1%Q 2%Q (33 # 32)%Q 2%Q);
      try reflexivity.
    split; reflexivity.
Defined.

(** C6, as stated, fails: a point without coordinates is accepted by the
    first call and makes the second call raise, and in a view whose pixels
    all geocode to one location the second call answers "moved" again. *)
Lemma moved_twice_is_not_always_rejected :
  (exists self',
     @PerceptibleMovementCheck.moved Sample.flat Sample.view Sample.no_fix
       PerceptibleMovementCheck.init = (Returns true, self') /\
     @PerceptibleMovementCheck.moved Sample.flat Sample.view Sample.no_fix
       self' = (Raises TypeError, self')) /\
  (exists self',
     @PerceptibleMovementCheck.moved Sample.pointlike Sample.view
       (Sample.position 1 2) PerceptibleMovementCheck.init
       = (Returns true, self') /\
     @PerceptibleMovementCheck.moved Sample.pointlike Sample.view
       (Sample.position 1 2) self' = (Returns true, self')).
Proof.
  split; eexists; split; reflexivity.
Qed.

Lemma moved_twice_same_point_witness :
  exists self',
    @PerceptibleMovementCheck.moved Sample.flat Sample.view
      (Sample.position 1 2) PerceptibleMovementCheck.init
      = (Returns true, self') /\
    @PerceptibleMovementCheck.moved Sample.flat Sample.view
      (Sample.position 1 2) self' = (Returns false, self').
Proof.
  apply (@moved_twice_same_point Sample.flat Sample.view (Sample.position 1 2));
    reflexivity.
Defined.

(* ------------------------------------------------------------------ *)
(** ** The image store *)

(** Running the store operations on a store [w ++ l]: [w] is what was
    there before, [l] what the code at hand has created. *)
Section Store.

Context {B : Type}.
Variables (w l : list Raster).

Lemma bind_alloc (r : Raster) (k : nat -> M (list Raster) B) :
  Py.bind (Image.alloc r) k (w ++ l)
  = k (length w + length l)%nat (w ++ (l ++ [r])).
Proof.
  unfold Py.bind, Image.alloc. rewrite length_app, app_assoc. reflexivity.
Qed.

Lemma bind_content (i : nat) (r : Raster) (k : Raster -> M (list Raster) B) :
  l !! i = Some r ->
  Py.bind (Image.content (length w + i)%nat) k (w ++ l) = k r (w ++ l).
Proof.
  intros Hi. unfold Py.bind, Image.content. cbv beta.
  rewrite lookup_app_r by lia.
  replace (length w + i - length w)%nat with i by lia.
  rewrite Hi. reflexivity.
Qed.

Lemma bind_update (i : nat) (r : Raster) (f : Raster -> Raster)
  (k : unit -> M (list Raster) B) :
  l !! i = Some r ->
  Py.bind (Image.update (length w + i)%nat f) k (w ++ l)
  = k tt (w ++ <[i := f r]> l).
Proof.
  intros Hi. unfold Py.bind, Image.update. cbv beta.
  rewrite lookup_app_r by lia.
  replace (length w + i - length w)%nat with i by lia.
  rewrite Hi, insert_app_r. reflexivity.
Qed.

End Store.

Lemma bind_bind {S A B C} (m : M S A) (f : A -> M S B) (k : B -> M S C)
  (s : S) :
  Py.bind (Py.bind m f) k s = Py.bind m (fun a => Py.bind (f a) k) s.
Proof. unfold Py.bind. destruct (m s) as [[a|e] s']; reflexivity. Qed.

Lemma bind_ret {S A B} (a : A) (k : A -> M S B) (s : S) :
  Py.bind (Py.ret a) k s = k a s.
Proof. reflexivity. Qed.

Lemma bind_ret_r {S A} (m : M S A) (s : S) : Py.bind m Py.ret s = m s.
Proof. unfold Py.bind, Py.ret. destruct (m s) as [[a|e] s']; reflexivity. Qed.

(** One step of a store computation in the form [bind op k (w ++ l)]. *)
Ltac store_step :=
  first
    [ rewrite bind_bind
    | rewrite bind_ret
    | rewrite bind_alloc
    | erewrite bind_content by reflexivity
    | erewrite bind_update by reflexivity ];
  cbn [length app fst snd].

Ltac store_run := repeat store_step.

Lemma paste_run (w : list Raster) (image c : nat) (r d : Raster)
  (xy : Z * Z) :
  w !! c = Some r -> w !! image = Some d ->
  Image.paste image (Some c) xy w = (Returns tt, <[image := Paste r xy d]> w).
Proof.
  intros Hc Hi. unfold Image.paste, Py.bind, Image.content, Image.update.
  rewrite Hc, Hi. reflexivity.
Qed.

Lemma paste_none (w : list Raster) (image : nat) (xy : Z * Z) :
  Image.paste image None xy w = (Raises TypeError, w).
Proof. reflexivity. Qed.

(** What a paste does to the images of the store, whether it returns or
    raises: it changes the destination at most, by one [Paste]. *)
Lemma paste_shape (w w' : list Raster) (image : nat) (src : option nat)
  (xy : Z * Z) (o : Outcome unit) :
  Image.paste image src xy w = (o, w') ->
  length w' = length w /\
  (forall i, i <> image -> w' !! i = w !! i) /\
  (forall r, w !! image = Some r ->
             w' !! image = Some r \/
             exists s0, w' !! image = Some (Paste s0 xy r)).
Proof.
  unfold Image.paste, Py.bind, Py.raise, Image.content, Image.update.
  destruct src as [src|]; [|intros [= <- <-]; repeat split; auto].
  destruct (w !! src) as [r0|]; [|intros [= <- <-]; repeat split; auto].
  destruct (w !! image) as [d|] eqn:Hd; intros [= <- <-];
    [|repeat split; auto; discriminate].
  split; [apply length_insert|]. split.
  - intros i Hi. apply list_lookup_insert_ne. congruence.
  - intros r [= <-]. right. exists r0.
    apply list_lookup_insert_eq. eapply lookup_lt_Some; eassumption.
Qed.

(* ------------------------------------------------------------------ *)
(** ** Redrawing the moving map *)

Lemma finished_has_ellipse (corner_radius : option Z) (opacity : Q) (size : Z)
  (r : Raster) :
  has_ellipse (Picture.finished corner_radius opacity size r) = has_ellipse r.
Proof. unfold Picture.finished. destruct (Picture.rounded _); reflexivity. Qed.

Lemma moving_has_ellipse (self : MovingMap.t) (map_ : geotiler.Map)
  (azimuth : option Q) :
  has_ellipse (Picture.moving self map_ azimuth) = true.
Proof.
  unfold Picture.moving. rewrite finished_has_ellipse.
  destruct (Picture.heading _ _); reflexivity.
Qed.

(** [_redraw] always returns: it creates its images after those of the
    store, changes none of the others, and returns the finished crop. *)
Lemma redraw_run (self : MovingMap.t) (map_ : geotiler.Map)
  (azimuth : option Q) (w : list Raster) :
  exists (c : nat) (news : list Raster),
    MovingMap._redraw self map_ azimuth w = (Returns c, w ++ news) /\
    (length w <= c)%nat /\
    (w ++ news) !! c = Some (Picture.moving self map_ azimuth).
Proof.
  replace (MovingMap._redraw self map_ azimuth w)
    with (Py.bind (MovingMap._redraw self map_ azimuth) Py.ret (w ++ []))
    by (rewrite bind_ret_r, app_nil_r; reflexivity).
  unfold MovingMap._redraw, Picture.moving, Picture.finished, Picture.heading,
    Picture.rounded, MovingMap.plain_finish, rounded_corners, renderer,
    draw_marker, ImageDraw.ellipse, ImageDraw.line,
    ImageDraw.rounded_rectangle, Image.rotate, Image.crop, Image.putalpha,
    Image.putalpha_mask, Image.size, Image.new.
  store_run.
  destruct azimuth as [azi|];
    [destruct (negb (Qeq_bool azi 0) && MovingMap.rotate self)|];
    store_run;
    (destruct (MovingMap.corner_radius self) as [radius|];
     [destruct (negb (radius =? 0))|]);
    store_run; unfold Py.ret;
    eexists _, _; (split; [reflexivity|]); (split; [lia|]);
    (rewrite lookup_app_r by lia);
    match goal with
    | |- _ !! ?i = _ =>
        match i with
        | (length w + ?k - length w)%nat =>
            replace i with k by lia
        end
    end; reflexivity.
Qed.

(** The images of a redraw, one by one: [_redraw] creates the marked
    tiles, their rotation if there is one, the crop it finishes and
    returns, and the mask of the rounded corners if there is one; it
    creates no other image and returns no copy. *)
Lemma redraw_exact (self : MovingMap.t) (map_ : geotiler.Map)
  (azimuth : option Q) (w : list Raster) :
  MovingMap._redraw self map_ azimuth w
  = (Returns (length w + length (Picture.sources self map_ azimuth))%nat,
     w ++ Picture.redrawn self map_ azimuth).
Proof.
  replace (MovingMap._redraw self map_ azimuth w)
    with (Py.bind (MovingMap._redraw self map_ azimuth) Py.ret (w ++ []))
    by (rewrite bind_ret_r, app_nil_r; reflexivity).
  unfold MovingMap._redraw, Picture.redrawn, Picture.sources, Picture.moving,
    Picture.finished, Picture.heading, Picture.rounded,
    MovingMap.plain_finish, rounded_corners, renderer,
    draw_marker, ImageDraw.ellipse, ImageDraw.line,
    ImageDraw.rounded_rectangle, Image.rotate, Image.crop, Image.putalpha,
    Image.putalpha_mask, Image.size, Image.new.
  store_run.
  destruct azimuth as [azi|];
    [destruct (negb (Qeq_bool azi 0) && MovingMap.rotate self)|];
    store_run;
    (destruct (MovingMap.corner_radius self) as [radius|];
     [destruct (negb (radius =? 0))|]);
    store_run; reflexivity.
Qed.

(** The marker of the raster a redraw returns is under its crop. *)
Lemma marked_moving (self : MovingMap.t) (map_ : geotiler.Map)
  (azimuth : option Q) :
  marked_before_crop (Picture.moving self map_ azimuth) = true.
Proof.
  unfold Picture.moving, Picture.finished.
  destruct (Picture.rounded _); cbn [marked_before_crop];
    destruct (Picture.heading _ _); reflexivity.
Qed.

Lemma redrawn_lookup (self : MovingMap.t) (map_ : geotiler.Map)
  (azimuth : option Q) (w : list Raster) :
  (w ++ Picture.redrawn self map_ azimuth)
    !! (length w + length (Picture.sources self map_ azimuth))%nat
  = Some (Picture.moving self map_ azimuth).
Proof.
  rewrite lookup_app_r by lia.
  replace (length w + length (Picture.sources self map_ azimuth) - length w)%nat
    with (length (Picture.sources self map_ azimuth)) by lia.
  unfold Picture.redrawn. cbv zeta.
  apply list_lookup_middle. reflexivity.
Qed.

(** A heading of -10 degrees rotates the tiles by 350 degrees. *)
Example heading_of_minus_ten_degrees :
  exists c w' crop tiles,
    MovingMap._redraw (Sample.moving (1 # 4)) Sample.view (Some (-10)%Q)
      Sample.frame = (Returns c, w') /\
    w' !! c = Some (PutAlpha 63 (Line (square_outline 256) (0, 0, 0) 0
                                   (Crop crop (Rotate 350 tiles)))).
Proof. do 4 eexists. split; [vm_compute; reflexivity|reflexivity]. Qed.

(* ------------------------------------------------------------------ *)
(** ** Drawing the moving map *)

Section Moving.

Context `{Externals}.

Import MovingMap.

(** The movement check inside [draw] never raises when the stored
    position, if any, has both coordinates. *)
Lemma moved_in_draw (p : PerceptibleMovementCheck.t) (map_ : geotiler.Map)
  (location : Point) :
  has_fix location = true ->
  (forall l, PerceptibleMovementCheck.last_location p = Some l ->
             has_fix l = true) ->
  (PerceptibleMovementCheck.moved map_ location p
     = (Returns true, PerceptibleMovementCheck.mk (Some location))) \/
  (PerceptibleMovementCheck.moved map_ location p = (Returns false, p) /\
   PerceptibleMovementCheck.last_location p <> None).
Proof.
  intros Hfix Hlast. destruct p as [[last|]].
  - specialize (Hlast last eq_refl). unfold has_fix in Hfix, Hlast.
    destruct (lon last) as [lx|] eqn:Hlx; [|discriminate Hlast].
    destruct (lat last) as [ly|] eqn:Hly; [|discriminate Hlast].
    destruct (lon location) as [px|] eqn:Hpx; [|discriminate Hfix].
    destruct (lat location) as [py|] eqn:Hpy; [|discriminate Hfix].
    rewrite (moved_next map_ last location lx ly px py) by assumption.
    destruct (_ && _); [right; split; [reflexivity|discriminate]|left].
    reflexivity.
  - left. reflexivity.
Qed.

(** The part of [draw] before the paste, when the check accepts. *)
Lemma refresh_moved (self : t) (w : list Raster) (x y : Q)
  (location : Point) (azimuth : option Q) :
  let map_ :=
    geotiler.Map_center (x, y) (zoom self) (hypotenuse self, hypotenuse self)
  in
  PerceptibleMovementCheck.moved map_ location (perceptible self)
    = (Returns true, PerceptibleMovementCheck.mk (Some location)) ->
  exists (c : nat) (news : list Raster),
    let self' :=
      set_perceptible (PerceptibleMovementCheck.mk (Some location)) self in
    refresh x y location azimuth (self, w)
      = (Returns tt, (set_cached (Some c) self', w ++ news)) /\
    (length w <= c)%nat /\
    (w ++ news) !! c = Some (Picture.moving self' map_ azimuth).
Proof.
  intros map_ Hm.
  destruct (redraw_run
              (set_perceptible (PerceptibleMovementCheck.mk (Some location))
                 self) map_ azimuth w) as (c & news & Hr & Hc & Hl).
  exists c, news. split; [|split; assumption].
  unfold refresh, on_perceptible, on_self, on_world, Py.within, Py.bind,
    Py.gets, Py.modify. cbn [fst snd].
  fold map_. rewrite Hm. cbn [fst snd].
  change (zoom (set_perceptible _ self)) with (zoom self).
  change (hypotenuse (set_perceptible _ self)) with (hypotenuse self).
  fold map_. rewrite Hr. reflexivity.
Qed.

(** The part of [draw] before the paste, when the check rejects. *)
Lemma refresh_not_moved (self : t) (w : list Raster) (x y : Q)
  (location : Point) (azimuth : option Q) :
  let map_ :=
    geotiler.Map_center (x, y) (zoom self) (hypotenuse self, hypotenuse self)
  in
  PerceptibleMovementCheck.moved map_ location (perceptible self)
    = (Returns false, perceptible self) ->
  refresh x y location azimuth (self, w) = (Returns tt, (self, w)).
Proof.
  intros map_ Hm.
  unfold refresh, on_perceptible, on_self, on_world, Py.within, Py.bind,
    Py.gets, Py.modify. cbn [fst snd].
  fold map_. rewrite Hm. destruct self; reflexivity.
Qed.

Lemma draw_with_fix (image : nat) (location : Point) (azimuth : option Q)
  (x y : Q) :
  lon location = Some x -> lat location = Some y ->
  draw image location azimuth
  = (run refresh x y location azimuth;
     do self <- Py.gets fst;
     on_world (Image.paste image (cached self) (at_ self))).
Proof. intros Hx Hy. unfold draw. rewrite Hx, Hy. reflexivity. Qed.

(** A paste changes the destination only, and keeps what was drawn on
    it. *)
Lemma paste_keeps_ellipses (w w' : list Raster) (image : nat)
  (src : option nat) (xy : Z * Z) (o : Outcome unit) :
  Image.paste image src xy w = (o, w') ->
  length w' = length w /\
  (forall c r, w !! c = Some r -> has_ellipse r = true ->
               exists r', w' !! c = Some r' /\ has_ellipse r' = true).
Proof.
  unfold Image.paste, Py.bind, Py.raise, Image.content, Image.update.
  destruct src as [src|]; [|intros [= <- <-]; eauto].
  destruct (w !! src) as [r0|]; [|intros [= <- <-]; eauto].
  destruct (w !! image) as [d|] eqn:Hd; intros [= <- <-]; [|eauto].
  split; [apply length_insert|].
  intros c r Hc Hr. destruct (decide (image = c)) as [->|Hne].
  - exists (Paste r0 xy d). rewrite list_lookup_insert_eq
      by (eapply lookup_lt_Some; eassumption).
    split; [reflexivity|]. simpl. congruence.
  - exists r. rewrite list_lookup_insert_ne by assumption. split; assumption.
Qed.

(** The part of [draw] before the paste, from a consistent state: it
    returns, and leaves a cached raster that shows the marker. *)
Lemma refresh_run (self : t) (w : list Raster) (x y : Q) (location : Point)
  (azimuth : option Q) :
  consistent (self, w) ->
  lon location = Some x -> lat location = Some y ->
  let map_ :=
    geotiler.Map_center (x, y) (zoom self) (hypotenuse self, hypotenuse self)
  in
  exists (self1 : t) (w1 : list Raster) (c : nat) (r : Raster),
    refresh x y location azimuth (self, w) = (Returns tt, (self1, w1)) /\
    cached self1 = Some c /\ w1 !! c = Some r /\ has_ellipse r = true /\
    at_ self1 = at_ self /\
    consistent (self1, w1) /\
    ((self1 = self /\ w1 = w /\
      PerceptibleMovementCheck.last_location (perceptible self) <> None) \/
     (exists news,
        w1 = w ++ news /\ (length w <= c)%nat /\
        r = Picture.moving self1 map_ azimuth /\
        perceptible self1 = PerceptibleMovementCheck.mk (Some location))).
Proof.
  intros Hs Hx Hy map_.
  pose proof Hs as [Hlast Hcache]. cbn [fst snd] in Hlast, Hcache.
  assert (Hfix : has_fix location = true)
    by (unfold has_fix; rewrite Hx, Hy; reflexivity).
  destruct (moved_in_draw (perceptible self) map_ location Hfix)
    as [Hm|[Hm Hsome]].
  { intros l Hl. apply (Hlast l Hl). }
  - destruct (refresh_moved self w x y location azimuth Hm)
      as (c & news & Hr & Hc & Hl).
    cbv zeta in Hr, Hl. fold map_ in Hl.
    eexists _, _, c, _. split; [exact Hr|].
    split; [reflexivity|]. split; [exact Hl|].
    split; [apply moving_has_ellipse|]. split; [reflexivity|].
    split.
    + split; cbn [fst snd set_cached set_perceptible perceptible cached
                  PerceptibleMovementCheck.last_location].
      * intros l [= <-]. split; [exact Hfix|discriminate].
      * intros c' [= <-]. eexists. split; [exact Hl|].
        apply moving_has_ellipse.
    + right. exists news. repeat split; try reflexivity; assumption.
  - destruct (cached self) as [c|] eqn:Hc.
    2:{ destruct (PerceptibleMovementCheck.last_location (perceptible self))
          as [l|] eqn:Hl; [|contradiction].
        destruct (Hlast l eq_refl) as [_ Hn]. contradiction. }
    destruct (Hcache c eq_refl) as (r & Hr & He).
    exists self, w, c, r.
    split; [apply refresh_not_moved; exact Hm|].
    split; [exact Hc|]. split; [exact Hr|]. split; [exact He|].
    split; [reflexivity|]. split; [exact Hs|].
    left. split; [reflexivity|]. split; [reflexivity|exact Hsome].
Qed.

Lemma init_consistent (at_ : Z * Z) (rotate : bool) (size zoom : Z)
  (corner_radius : option Z) (opacity : Q) (w : list Raster) :
  consistent (init at_ rotate size zoom corner_radius opacity, w).
Proof. split; cbn; intros ? [=]. Qed.

Lemma draw_consistent (s s' : t * list Raster) (image : nat)
  (location : Point) (azimuth : option Q) (o : Outcome unit) :
  consistent s ->
  draw image location azimuth s = (o, s') ->
  consistent s'.
Proof.
  destruct s as [self w]. intros Hs Hd.
  destruct (lon location) as [x|] eqn:Hx;
    [destruct (lat location) as [y|] eqn:Hy|].
  - rewrite (draw_with_fix image location azimuth x y Hx Hy) in Hd.
    destruct (refresh_run self w x y location azimuth Hs Hx Hy)
      as (self1 & w1 & c & r & Hr & Hc & Hl & He & _ & [H1 H2] & _).
    unfold Py.bind in Hd. rewrite Hr in Hd.
    unfold Py.gets, on_world, Py.within in Hd. cbn [fst snd] in Hd.
    destruct (Image.paste image (cached self1) (at_ self1) w1)
      as [o' w2] eqn:Hp.
    injection Hd as <- <-.
    destruct (paste_keeps_ellipses _ _ _ _ _ _ Hp) as [_ Hkeep].
    split; cbn [fst snd] in *.
    + exact H1.
    + intros c' Hc'. destruct (H2 c' Hc') as (r' & Hr' & He').
      apply (Hkeep c' r' Hr' He').
  - unfold draw in Hd. rewrite Hx, Hy in Hd. injection Hd as <- <-.
    exact Hs.
  - unfold draw in Hd. rewrite Hx in Hd. injection Hd as <- <-.
    exact Hs.
Qed.

Lemma reachable_consistent (s : t * list Raster) :
  reachable s -> consistent s.
Proof.
  induction 1 as [| s image location azimuth o s' _ IH Hd
                  | self w w' _ IH Hlen Hsame].
  - apply init_consistent.
  - eapply draw_consistent; eassumption.
  - destruct IH as [H1 H2]. split; cbn [fst snd] in *.
    + exact H1.
    + intros c Hc. rewrite (Hsame c Hc). apply (H2 c Hc).
Qed.

(** C9: a draw call whose position lacks its longitude or its latitude
    returns at once; nothing is pasted onto the destination frame, and
    the cached raster, the movement check and every image of the store
    are what they were. *)
Theorem draw_without_fix_is_a_no_op (self : t) (w : list Raster)
  (image : nat) (location : Point) (azimuth : option Q) :
  lon location = None \/ lat location = None ->
  exists (self' : t) (w' : list Raster),
    draw image location azimuth (self, w) = (Returns tt, (self', w')) /\
    w' = w /\
    pastes <$> (w' !! image) = pastes <$> (w !! image) /\
    cached self' = cached self /\
    (forall c, cached self = Some c -> w' !! c = w !! c) /\
    perceptible self' = perceptible self.
Proof.
  intros Hno. exists self, w.
  split; [|repeat split; reflexivity].
  unfold draw. destruct Hno as [E|E]; rewrite E;
    [|destruct (lon location)]; reflexivity.
Qed.

(** C10: in every state a moving map goes through, a draw call with
    both coordinates gets to its paste with a cached raster in place:
    the steps before the paste return, the cached raster is then an
    image of the store, and the call is the paste of that image.  When
    no last position is stored the check answers "moved" and the cached
    raster is one that this very call has drawn.  The paste never meets
    [None]: with a destination frame of the store the call returns. *)
Theorem paste_finds_a_cached_raster (s : t * list Raster) (image : nat)
  (location : Point) (azimuth : option Q) (x y : Q) :
  reachable s ->
  lon location = Some x -> lat location = Some y ->
  let map_ :=
    geotiler.Map_center (x, y) (zoom (fst s))
      (hypotenuse (fst s), hypotenuse (fst s)) in
  exists (s1 : t * list Raster) (c : nat),
    refresh x y location azimuth s = (Returns tt, s1) /\
    cached (fst s1) = Some c /\
    is_Some (snd s1 !! c) /\
    draw image location azimuth s
      = on_world (Image.paste image (Some c) (at_ (fst s1))) s1 /\
    (PerceptibleMovementCheck.last_location (perceptible (fst s)) = None ->
     fst (PerceptibleMovementCheck.moved map_ location (perceptible (fst s)))
       = Returns true /\
     (length (snd s) <= c)%nat) /\
    ((image < length (snd s))%nat ->
     fst (draw image location azimuth s) = Returns tt).
Proof.
  intros Hreach Hx Hy map_. apply reachable_consistent in Hreach.
  destruct s as [self w]. cbn [fst snd] in *.
  destruct (refresh_run self w x y location azimuth Hreach Hx Hy)
    as (self1 & w1 & c & r & Hr & Hc & Hl & _ & _ & _ & Hcase).
  assert (Hdraw : draw image location azimuth (self, w)
                  = on_world (Image.paste image (Some c) (at_ self1))
                      (self1, w1)).
  { rewrite (draw_with_fix image location azimuth x y Hx Hy).
    unfold Py.bind at 1. rewrite Hr.
    unfold Py.bind, Py.gets. cbn [fst snd]. rewrite Hc. reflexivity. }
  exists (self1, w1), c. cbn [fst snd].
  split; [exact Hr|]. split; [exact Hc|].
  split; [rewrite Hl; eexists; reflexivity|].
  split; [exact Hdraw|]. split.
  - intros Hnone. destruct Hcase as [(_ & _ & Hsome)|(news & _ & Hlen & _)];
      [contradiction|].
    split; [|exact Hlen].
    destruct (perceptible self) as [last]. cbn in Hnone. subst last.
    reflexivity.
  - intros Himage. rewrite Hdraw.
    assert (Hlen : (image < length w1)%nat).
    { destruct Hcase as [(_ & -> & _)|(news & -> & _)];
        [|rewrite length_app]; lia. }
    destruct (lookup_lt_is_Some_2 w1 image Hlen) as [d Hd].
    unfold on_world, Py.within. cbn [fst snd].
    rewrite (paste_run w1 image c r d _ Hl Hd). reflexivity.
Qed.

(** The part of [draw] before the paste, when the check accepts, image
    by image. *)
Lemma refresh_moved_exact (self : t) (w : list Raster) (x y : Q)
  (location : Point) (azimuth : option Q) :
  let map_ := Frames.view_at self x y in
  PerceptibleMovementCheck.moved map_ location (perceptible self)
    = (Returns true, PerceptibleMovementCheck.mk (Some location)) ->
  refresh x y location azimuth (self, w)
  = (Returns tt,
     (set_cached
        (Some (length w + length (Picture.sources self map_ azimuth))%nat)
        (set_perceptible (PerceptibleMovementCheck.mk (Some location)) self),
      w ++ Picture.redrawn self map_ azimuth)).
Proof.
  intros map_ Hm.
  unfold refresh, on_perceptible, on_self, on_world, Py.within, Py.bind,
    Py.gets, Py.modify. cbn [fst snd].
  change (geotiler.Map_center (x, y) (zoom self)
            (hypotenuse self, hypotenuse self)) with map_.
  rewrite Hm. cbn [fst snd].
  change (geotiler.Map_center (x, y) (zoom (set_perceptible _ self))
            (hypotenuse (set_perceptible _ self),
             hypotenuse (set_perceptible _ self))) with map_.
  rewrite redraw_exact. reflexivity.
Qed.

(** A draw call keeps the marker of the cached raster under its crop. *)
Lemma draw_marked (s s' : t * list Raster) (image : nat) (location : Point)
  (azimuth : option Q) (o : Outcome unit) :
  consistent s -> Frames.marked s ->
  draw image location azimuth s = (o, s') ->
  Frames.marked s'.
Proof.
  destruct s as [self w]. intros Hs Hc Hd.
  destruct (lon location) as [x|] eqn:Hx;
    [destruct (lat location) as [y|] eqn:Hy|].
  2,3: unfold draw in Hd; rewrite Hx, ?Hy in Hd; injection Hd as <- <-;
       exact Hc.
  rewrite (draw_with_fix image location azimuth x y Hx Hy) in Hd.
  assert (Hfix : has_fix location = true)
    by (unfold has_fix; rewrite Hx, Hy; reflexivity).
  pose proof Hs as [Hlast _]. cbn [fst snd] in Hlast.
  assert (Hmid : exists self1 w1,
             refresh x y location azimuth (self, w) = (Returns tt, (self1, w1))
             /\ Frames.marked (self1, w1)).
  { destruct (moved_in_draw (perceptible self) (Frames.view_at self x y)
                location Hfix) as [Hm|[Hm _]].
    { intros l Hl. apply (Hlast l Hl). }
    - eexists _, _.
      split; [apply (refresh_moved_exact self w x y location azimuth Hm)|].
      intros c' [= <-]. cbn [fst snd].
      eexists. split; [apply redrawn_lookup|apply marked_moving].
    - exists self, w. split; [|exact Hc].
      apply refresh_not_moved. exact Hm. }
  destruct Hmid as (self1 & w1 & Hr & Hc1).
  unfold Py.bind at 1 in Hd. rewrite Hr in Hd.
  unfold Py.bind, Py.gets, on_world, Py.within in Hd. cbn [fst snd] in Hd.
  destruct (Image.paste image (cached self1) (at_ self1) w1)
    as [o' w2] eqn:Hp.
  injection Hd as <- <-.
  destruct (paste_shape _ _ _ _ _ _ Hp) as (_ & Hother & Hdest).
  intros c Hcached. cbn [fst snd] in *.
  destruct (Hc1 c Hcached) as (r & Hr1 & Hmk).
  destruct (decide (c = image)) as [->|Hne].
  - destruct (Hdest r Hr1) as [Hsame|[s0 Hpasted]].
    + exists r. split; assumption.
    + exists (Paste s0 (at_ self1) r). split; assumption.
  - exists r. rewrite (Hother c Hne). split; assumption.
Qed.

Lemma reachable_marked (s : t * list Raster) :
  reachable s -> Frames.marked s.
Proof.
  induction 1 as [| s image location azimuth o s' Hreach IH Hd
                  | self w w' _ IH Hlen Hsame].
  - intros c [=].
  - eapply draw_marked; [apply reachable_consistent| |]; eassumption.
  - intros c Hc. cbn [fst snd] in *.
    destruct (IH c Hc) as (r & Hr & Hmk).
    exists r. rewrite (Hsame c Hc). split; assumption.
Qed.

(** C2, amended: in every state a moving map goes through while its tile
    renderer returns, a draw call with both coordinates pastes the cached
    raster itself onto the destination frame, and the cached raster shows
    the marker, which was drawn on the tiles before they were rotated and
    cropped.  Nothing is copied and nothing is drawn at paste time: apart
    from the paste on the destination, the widget and the store are the
    ones the call started with (cache hit), or the store is that store
    followed by the images of the redraw -- the marked tiles, their
    rotation if any, the crop, which is the cached raster, and the mask
    of the rounded corners if any. *)
Theorem draw_pastes_the_cached_raster_and_its_marker
  (s : t * list Raster) (image : nat) (location : Point)
  (azimuth : option Q) (x y : Q) :
  reachable s ->
  lon location = Some x -> lat location = Some y ->
  (image < length (snd s))%nat ->
  let map_ := Frames.view_at (fst s) x y in
  exists (self' : t) (w1 : list Raster) (c : nat) (r d : Raster),
    draw image location azimuth s
      = (Returns tt, (self', <[image := Paste r (at_ self') d]> w1)) /\
    cached self' = Some c /\
    w1 !! c = Some r /\
    w1 !! image = Some d /\
    has_ellipse r = true /\
    marked_before_crop r = true /\
    ((self' = fst s /\ w1 = snd s) \/
     (self'
        = set_cached (Some c)
            (set_perceptible (PerceptibleMovementCheck.mk (Some location))
               (fst s)) /\
      c = (length (snd s)
           + length (Picture.sources (fst s) map_ azimuth))%nat /\
      r = Picture.moving (fst s) map_ azimuth /\
      w1 = snd s ++ Picture.redrawn (fst s) map_ azimuth)).
Proof.
  intros Hreach Hx Hy Himage map_.
  pose proof (reachable_consistent s Hreach) as Hs.
  pose proof (reachable_marked s Hreach) as Hmk.
  destruct s as [self w]. cbn [fst snd] in *.
  pose proof Hs as [Hlast Hcache]. cbn [fst snd] in Hlast, Hcache.
  assert (Hfix : has_fix location = true)
    by (unfold has_fix; rewrite Hx, Hy; reflexivity).
  destruct (lookup_lt_is_Some_2 w image Himage) as [d Hd].
  rewrite (draw_with_fix image location azimuth x y Hx Hy).
  destruct (moved_in_draw (perceptible self) map_ location Hfix)
    as [Hm|[Hm Hsome]].
  { intros l Hl. apply (Hlast l Hl). }
  - pose proof (refresh_moved_exact self w x y location azimuth Hm) as Hr.
    cbv zeta in Hr. fold map_ in Hr.
    pose proof (redrawn_lookup self map_ azimuth w) as Hl.
    assert (Hd' : (w ++ Picture.redrawn self map_ azimuth) !! image = Some d)
      by (rewrite lookup_app_l by exact Himage; exact Hd).
    exists (set_cached
              (Some (length w + length (Picture.sources self map_ azimuth))%nat)
              (set_perceptible (PerceptibleMovementCheck.mk (Some location))
                 self)),
      (w ++ Picture.redrawn self map_ azimuth),
      (length w + length (Picture.sources self map_ azimuth))%nat,
      (Picture.moving self map_ azimuth), d.
    split.
    + unfold Py.bind at 1. rewrite Hr.
      unfold Py.bind, Py.gets, on_world, Py.within.
      cbn [fst snd cached set_cached at_ set_perceptible].
      rewrite (paste_run _ image _ _ d _ Hl Hd'). reflexivity.
    + split; [reflexivity|]. split; [exact Hl|]. split; [exact Hd'|].
      split; [apply moving_has_ellipse|]. split; [apply marked_moving|].
      right. repeat split; reflexivity.
  - destruct (cached self) as [c|] eqn:Hc.
    2:{ destruct (PerceptibleMovementCheck.last_location (perceptible self))
          as [l|] eqn:Hl; [|contradiction].
        destruct (Hlast l eq_refl) as [_ Hn]. contradiction. }
    destruct (Hcache c eq_refl) as (r & Hr & He).
    destruct (Hmk c Hc) as (r' & Hr' & Hm').
    cbn [fst snd] in Hr'. rewrite Hr in Hr'. injection Hr' as <-.
    exists self, w, c, r, d. split.
    + unfold Py.bind at 1.
      rewrite (refresh_not_moved self w x y location azimuth Hm).
      unfold Py.bind, Py.gets, on_world, Py.within. cbn [fst snd].
      rewrite Hc, (paste_run w image c r d _ Hr Hd). reflexivity.
    + split; [exact Hc|]. split; [exact Hr|]. split; [exact Hd|].
      split; [exact He|]. split; [exact Hm'|].
      left. split; reflexivity.
Qed.

End Moving.

Lemma draw_without_fix_is_a_no_op_witness :
  exists (self' : MovingMap.t) (w' : list Raster),
    @MovingMap.draw Sample.flat 0%nat (Sample.no_lon 2) (Some 90%Q)
      (Sample.moving (1 # 4), Sample.frame) = (Returns tt, (self', w')) /\
    w' = Sample.frame /\
    pastes <$> (w' !! 0%nat) = pastes <$> (Sample.frame !! 0%nat) /\
    MovingMap.cached self' = MovingMap.cached (Sample.moving (1 # 4)) /\
    (forall c, MovingMap.cached (Sample.moving (1 # 4)) = Some c ->
               w' !! c = Sample.frame !! c) /\
    MovingMap.perceptible self' = MovingMap.perceptible (Sample.moving (1 # 4)).
Proof.
  apply (@draw_without_fix_is_a_no_op Sample.flat). left. reflexivity.
Defined.

Lemma paste_finds_a_cached_raster_witness :
  exists (s1 : MovingMap.t * list Raster) (c : nat),
    @MovingMap.refresh Sample.flat 1 2 (Sample.position 1 2) None
      (Sample.moving (1 # 4), Sample.frame) = (Returns tt, s1) /\
    MovingMap.cached (fst s1) = Some c /\
    is_Some (snd s1 !! c).
Proof.
  destruct (@paste_finds_a_cached_raster Sample.flat
              (Sample.moving (1 # 4), Sample.frame) 0%nat
              (Sample.position 1 2) None 1%Q 2%Q)
    as (s1 & c & Hr & Hc & Hl & _).
  - apply MovingMap.reach_init.
  - reflexivity.
  - reflexivity.
  - exists s1, c. split; [exact Hr|]. split; [exact Hc|exact Hl].
Defined.

(** C2, as stated, fails: after the first draw of a moving map the store
    holds the destination frame, the marked tiles and the finished crop;
    the crop is the cached raster, it shows the marker, and it is what the
    frame received: no copy of it was made. *)
Lemma cached_raster_shows_the_marker :
  exists (self' : MovingMap.t) (w' : list Raster) (c : nat) (r d : Raster),
    @MovingMap.draw Sample.flat 0%nat (Sample.position 1 2) None
      (Sample.moving (1 # 4), Sample.frame) = (Returns tt, (self', w')) /\
    MovingMap.cached self' = Some c /\
    w' !! c = Some r /\
    has_ellipse r = true /\
    w' !! 0%nat = Some (Paste r (10, 20) d) /\
    length w' = 3%nat.
Proof.
  do 5 eexists. split; [vm_compute; reflexivity|].
  split; [reflexivity|]. split; [reflexivity|].
  split; [reflexivity|]. split; reflexivity.
Qed.

Lemma draw_pastes_the_cached_raster_and_its_marker_witness :
  exists (self' : MovingMap.t) (w1 : list Raster) (c : nat) (r d : Raster),
    @MovingMap.draw Sample.flat 0%nat (Sample.position 1 2) None
      (Sample.moving (1 # 4), Sample.frame)
      = (Returns tt,
         (self', <[0%nat := Paste r (MovingMap.at_ self') d]> w1)) /\
    MovingMap.cached self' = Some c /\
    w1 !! c = Some r /\
    has_ellipse r = true /\
    marked_before_crop r = true.
Proof.
  destruct (@draw_pastes_the_cached_raster_and_its_marker Sample.flat
              (Sample.moving (1 # 4), Sample.frame) 0%nat
              (Sample.position 1 2) None 1%Q 2%Q)
    as (self' & w1 & c & r & d & Hd & Hc & Hl & _ & He & Hm & _).
  - apply MovingMap.reach_init.
  - reflexivity.
  - reflexivity.
  - simpl. lia.
  - exists self', w1, c, r, d. repeat split; assumption.
Defined.

(* ------------------------------------------------------------------ *)
(** ** The journey map *)

Section Journeys.

Context `{Externals}.

Import JourneyMap.

(** The traversal hands every position to the journey, in order. *)
Lemma process_locations (timeseries : list Point) (journey : Journey.t) :
  Journey.locations (Journey.process timeseries journey)
  = Journey.locations journey ++ timeseries.
Proof.
  revert journey. induction timeseries as [|p rest IH]; intros journey.
  - simpl. rewrite app_nil_r. reflexivity.
  - unfold Journey.process in *. simpl. rewrite IH. simpl.
    rewrite <- app_assoc. reflexivity.
Qed.

(** The loop of the comprehension, for any list built so far. *)
Lemma plots_from_returns (m : geotiler.Map) (encloses : Point -> bool)
  (route : list Point) :
  forall (acc ps : list (Q * Q)),
    plots_from m encloses route acc = Returns ps <->
    exists qs,
      ps = acc ++ qs /\
      Forall2 (projects m) (Described.not_enclosed encloses route) qs.
Proof.
  unfold Described.not_enclosed.
  induction route as [|p rest IH]; intros acc ps; simpl.
  - split.
    + intros [= <-]. exists []. rewrite app_nil_r. split; constructor.
    + intros (qs & -> & Hall). inversion Hall. rewrite app_nil_r.
      reflexivity.
  - destruct (negb (encloses p)); [|apply IH].
    destruct (rev_geocode_point m p) as [xy|e] eqn:Hp.
    + rewrite IH. split.
      * intros (qs & -> & Hall). exists (xy :: qs).
        rewrite <- app_assoc. split; [reflexivity|].
        constructor; assumption.
      * intros (qs & -> & Hall).
        inversion Hall as [|p' xy' rest' qs' Hp' Hrest]; subst.
        unfold projects in Hp'. rewrite Hp in Hp'. injection Hp' as <-.
        exists qs'. rewrite <- app_assoc. split; [reflexivity|assumption].
    + split; [discriminate|].
      intros (qs & -> & Hall).
      inversion Hall as [|p' xy' rest' qs' Hp' Hrest]; subst.
      unfold projects in Hp'. rewrite Hp in Hp'. discriminate Hp'.
Qed.

(** When the positions that are kept have coordinates, the route is
    projected in full. *)
Lemma kept_positions_project (m : geotiler.Map) (encloses : Point -> bool)
  (route : list Point) :
  Forall (fun p => has_fix p = true)
    (Described.not_enclosed encloses route) ->
  exists ps,
    plots m encloses route = Returns ps /\
    Forall2 (projects m) (Described.not_enclosed encloses route) ps.
Proof.
  intros Hfix.
  assert (Hex : exists ps,
             Forall2 (projects m) (Described.not_enclosed encloses route) ps).
  { induction Hfix as [|p kept Hp _ [ps IH]].
    - exists []. constructor.
    - unfold has_fix in Hp.
      destruct (lon p) as [x|] eqn:Hx; [|discriminate Hp].
      destruct (lat p) as [y|] eqn:Hy; [|discriminate Hp].
      exists (rev_geocode m (x, y) :: ps). constructor; [|exact IH].
      unfold projects, rev_geocode_point. rewrite Hx, Hy. reflexivity. }
  destruct Hex as [ps Hps]. exists ps. split; [|exact Hps].
  unfold plots. rewrite plots_from_returns.
  exists ps. split; [reflexivity|exact Hps].
Qed.

(** C8: the polyline of a route is, point for point and in the order of
    the route, the projection of the positions that the privacy zone
    does not enclose; the enclosed positions have no point in it.  It is
    produced whenever the positions that are kept have coordinates. *)
Theorem plots_are_the_points_not_enclosed (m : geotiler.Map)
  (encloses : Point -> bool) (route : list Point) :
  (forall ps,
     plots m encloses route = Returns ps <->
     Forall2 (projects m) (Described.not_enclosed encloses route) ps) /\
  (Forall (fun p => has_fix p = true)
     (Described.not_enclosed encloses route) ->
   exists ps, plots m encloses route = Returns ps).
Proof.
  split.
  - intros ps. unfold plots. rewrite plots_from_returns. simpl. split.
    + intros (qs & -> & Hall). exact Hall.
    + intros Hall. exists ps. split; [reflexivity|exact Hall].
  - intros Hfix.
    assert (Hex : exists ps,
               Forall2 (projects m) (Described.not_enclosed encloses route) ps).
    { induction Hfix as [|p kept Hp _ [ps IH]].
      - exists []. constructor.
      - unfold has_fix in Hp.
        destruct (lon p) as [x|] eqn:Hx; [|discriminate Hp].
        destruct (lat p) as [y|] eqn:Hy; [|discriminate Hp].
        exists (rev_geocode m (x, y) :: ps). constructor; [|exact IH].
        unfold projects, rev_geocode_point. rewrite Hx, Hy. reflexivity. }
    destruct Hex as [ps Hps]. exists ps.
    unfold plots. rewrite plots_from_returns.
    exists ps. split; [reflexivity|exact Hps].
Qed.

(** The backdrop is built after the images of the store. *)
Lemma backdrop_run (self : t) (m : geotiler.Map) (route : list (Q * Q))
  (w : list Raster) :
  exists (c : nat) (news : list Raster),
    backdrop self m route w = (Returns c, w ++ news) /\
    (length w <= c)%nat /\
    (w ++ news) !! c = Some (Picture.journey self m route).
Proof.
  replace (backdrop self m route w)
    with (Py.bind (backdrop self m route) Py.ret (w ++ []))
    by (rewrite bind_ret_r, app_nil_r; reflexivity).
  unfold backdrop, Picture.journey, Picture.finished, Picture.rounded,
    plain_finish, rounded_corners, renderer, ImageDraw.line,
    ImageDraw.rounded_rectangle, Image.putalpha, Image.putalpha_mask,
    Image.size, Image.new.
  store_run.
  (destruct (corner_radius self) as [radius|];
   [destruct (negb (radius =? 0))|]);
  store_run; unfold Py.ret;
  eexists _, _; (split; [reflexivity|]); (split; [lia|]);
  (rewrite lookup_app_r by lia);
  match goal with
  | |- _ !! ?i = _ =>
      match i with
      | (length w + ?k - length w)%nat => replace i with k by lia
      end
  end; reflexivity.
Qed.

(** [_init_maybe] on a widget that has no view yet: it raises without
    any effect when the view cannot be built; it keeps the view and raises
    when the route cannot be projected; otherwise it keeps the view and
    the backdrop. *)
Lemma init_maybe_fresh (self : t) (w : list Raster) :
  map_ self = None ->
  match Backdrop.view self with
  | Returns m =>
      match plots m (privacy_zone self) (timeseries self) with
      | Returns route =>
          exists (b : nat) (news : list Raster),
            _init_maybe (self, w)
              = (Returns tt, (set_image b (set_map m self), w ++ news)) /\
            (length w <= b)%nat /\
            (w ++ news) !! b = Some (Picture.journey self m route)
      | Raises e => _init_maybe (self, w) = (Raises e, (set_map m self, w))
      end
  | Raises e => _init_maybe (self, w) = (Raises e, (self, w))
  end.
Proof.
  intros Hmap.
  unfold _init_maybe, Backdrop.view, Backdrop.extent_view, Py.bind, Py.gets,
    Py.lift, Py.modify, on_self, on_world, Py.within.
  cbn [fst snd]. rewrite Hmap.
  rewrite process_locations. cbn [Journey.locations Journey.init app].
  destruct (bounding_box (timeseries self)) as [bbox|e]; [|reflexivity].
  destruct (Map_extent _ _) as [m0|e]; [|reflexivity].
  cbn [fst snd]. set (m := capped m0).
  destruct (plots m (privacy_zone self) (timeseries self)) as [route|e].
  - destruct (backdrop_run self m route w) as (b & news & Hb & Hlen & Hl).
    exists b, news. rewrite Hb. cbn [fst snd].
    split; [reflexivity|]. split; assumption.
  - reflexivity.
Qed.

(** [_init_maybe] creates images and changes none of the store. *)
Lemma init_maybe_extends (self : t) (w : list Raster) :
  exists (o : Outcome unit) (self' : t) (news : list Raster),
    _init_maybe (self, w) = (o, (self', w ++ news)) /\
    at_ self' = at_ self.
Proof.
  destruct (map_ self) as [m|] eqn:Hmap.
  - exists (Returns tt), self, []. rewrite app_nil_r. split; [|reflexivity].
    unfold _init_maybe, Py.bind, Py.gets. cbn [fst snd]. rewrite Hmap.
    reflexivity.
  - pose proof (init_maybe_fresh self w Hmap) as Hi.
    destruct (Backdrop.view self) as [m|e].
    + destruct (plots m (privacy_zone self) (timeseries self)) as [route|e].
      * destruct Hi as (b & news & Hi & _).
        eexists _, _, news. split; [exact Hi|reflexivity].
      * eexists _, _, []. rewrite app_nil_r. split; [exact Hi|reflexivity].
    + eexists _, _, []. rewrite app_nil_r. split; [exact Hi|reflexivity].
Qed.

(** C3 on the code: a draw call of the journey map whose position lacks
    a coordinate raises, and the destination frame is left as it was:
    the backdrop is not pasted. *)
Theorem journey_draw_without_fix_raises (self : t) (w : list Raster)
  (image_ : nat) (location : Point) :
  has_fix location = false ->
  (image_ < length w)%nat ->
  exists (e : Error) (s' : t * list Raster),
    draw image_ location (self, w) = (Raises e, s') /\
    snd s' !! image_ = w !! image_.
Proof.
  intros Hfix Himage.
  assert (Hp : forall m, rev_geocode_point m location = Raises TypeError).
  { intros m. unfold rev_geocode_point. unfold has_fix in Hfix.
    destruct (lon location); [destruct (lat location)|];
      [discriminate Hfix|reflexivity|reflexivity]. }
  destruct (init_maybe_extends self w) as (o & self' & news & Hi & _).
  unfold draw, Py.bind at 1. rewrite Hi.
  assert (Hkeep : forall more, (w ++ more) !! image_ = w !! image_)
    by (intros more; apply lookup_app_l; exact Himage).
  destruct o as [[]|e]; [|eexists _, _; split; [reflexivity|apply Hkeep]].
  unfold Image.copy.
  unfold Py.bind, Py.gets, Py.raise, Py.lift, on_world, Py.within,
    Image.content, Image.alloc. cbn [fst snd].
  destruct (image self') as [c|]; cbn [fst snd];
    [|eexists _, _; split; [reflexivity|apply Hkeep]].
  destruct ((w ++ news) !! c) as [r|]; cbn [fst snd];
    [|eexists _, _; split; [reflexivity|apply Hkeep]].
  destruct (map_ self') as [m|];
    [rewrite Hp|];
    (eexists _, _; split; [reflexivity|]);
    cbn [snd]; rewrite <- app_assoc; apply Hkeep.
Qed.

End Journeys.

Lemma plots_are_the_points_not_enclosed_witness :
  exists ps,
    @JourneyMap.plots Sample.flat Sample.view Sample.home Sample.route
    = Returns ps.
Proof.
  apply (proj2 (@plots_are_the_points_not_enclosed Sample.flat Sample.view
                  Sample.home Sample.route)).
  repeat constructor.
Defined.

(** A route of three positions whose middle one is enclosed gives a
    polyline of two points, the first joined to the third. *)
Example three_positions_one_enclosed :
  @JourneyMap.plots Sample.flat Sample.view Sample.home Sample.route
  = Returns [@rev_geocode Sample.flat Sample.view (0, 0)%Q;
             @rev_geocode Sample.flat Sample.view (2, 2)%Q].
Proof. reflexivity. Qed.

Lemma journey_draw_without_fix_raises_witness :
  exists (e : Error) (s' : JourneyMap.t * list Raster),
    @JourneyMap.draw Sample.flat 0%nat Sample.no_fix
      (Sample.journey, Sample.frame) = (Raises e, s') /\
    snd s' !! 0%nat = Sample.frame !! 0%nat.
Proof.
  apply (@journey_draw_without_fix_raises Sample.flat).
  - reflexivity.
  - simpl. lia.
Defined.

(** The first draw of a journey map without a fix: the backdrop is built
    and copied, the projection of the position raises [TypeError], and the
    destination frame has received nothing.  With a fix the same call
    pastes the copy, marker included. *)
Example journey_first_draw :
  (exists s',
     @JourneyMap.draw Sample.flat 0%nat Sample.no_fix
       (Sample.journey, Sample.frame) = (Raises TypeError, s') /\
     pastes <$> (snd s' !! 0%nat) = Some []) /\
  (exists s' r d,
     @JourneyMap.draw Sample.flat 0%nat (Sample.position 1 1)
       (Sample.journey, Sample.frame) = (Returns tt, s') /\
     snd s' !! 0%nat = Some (Paste r (10, 20) d) /\
     has_ellipse r = true).
Proof.
  split.
  - eexists. split; [vm_compute; reflexivity|reflexivity].
  - do 3 eexists. split; [vm_compute; reflexivity|].
    split; reflexivity.
Qed.

(* ------------------------------------------------------------------ *)
(** ** The flat alpha of the finishing step *)

(** The alpha value of a product between 0 and 255: the product is
    rounded to binary64 and truncated.  It is the floor of the exact
    product, or one more when the product rounds up to that integer. *)
Lemma truncated_alpha (q : Q) :
  (0 <= q)%Q -> (q <= 255)%Q ->
  let alpha := Py.int (Binary64.fl q) in
  0 <= alpha <= 255 /\
  Qfloor q <= alpha <= Qfloor q + 1 /\
  (alpha = Qfloor q + 1 -> (Binary64.fl q == inject_Z alpha)%Q).
Proof.
  intros H0 H1 alpha.
  set (k := Qfloor q).
  assert (Hk0 : 0 <= k).
  { change 0 with (Qfloor 0). apply Qfloor_resp_le. exact H0. }
  assert (Hk1 : k <= 255).
  { rewrite <- (Qfloor_Z 255). apply Qfloor_resp_le. exact H1. }
  pose proof (Qfloor_le q) as Hlo. fold k in Hlo.
  pose proof (Qlt_floor q) as Hhi. fold k in Hhi.
  destruct (fl_between q k Hk0 ltac:(lia) Hlo (Qlt_le_weak _ _ Hhi))
    as [Flo Fhi].
  assert (Ftop : (Binary64.fl q <= inject_Z 255)%Q).
  { rewrite <- (fl_inject 255) by lia. apply fl_monotone. exact H1. }
  assert (Fpos : (0 <= Binary64.fl q)%Q).
  { eapply Qle_trans; [|exact Flo]. change 0%Q with (inject_Z 0).
    rewrite <- Zle_Qle. exact Hk0. }
  assert (Ha : alpha = Qfloor (Binary64.fl q)) by apply int_floor, Fpos.
  assert (A0 : k <= alpha).
  { rewrite Ha, <- (Qfloor_Z k). apply Qfloor_resp_le. exact Flo. }
  assert (A1 : alpha <= k + 1).
  { rewrite Ha, <- (Qfloor_Z (k + 1)). apply Qfloor_resp_le. exact Fhi. }
  assert (A2 : alpha <= 255).
  { rewrite Ha, <- (Qfloor_Z 255). apply Qfloor_resp_le. exact Ftop. }
  split; [lia|]. split; [lia|].
  intros E. apply Qle_antisym.
  - rewrite E. exact Fhi.
  - rewrite Ha. apply Qfloor_le.
Qed.

Lemma plain_finished_alpha (surface_alpha : Raster -> Z -> Z -> Z)
  (corner_radius : option Z) (opacity : Q) (size : Z) (r : Raster) :
  Picture.rounded corner_radius = None ->
  forall x y,
    alpha_at surface_alpha (Picture.finished corner_radius opacity size r) x y
    = Py.int (Binary64.fl (255 * opacity)).
Proof. intros Hr x y. unfold Picture.finished. rewrite Hr. reflexivity. Qed.

(** C4, amended: for every opacity o in [0,1], the finishing step with no
    corner radius, in the moving map and in the journey map alike, yields
    an image whose alpha band is int(255 * o) at every pixel, where
    255 * o is the binary64 product: the rounded product, truncated.  It
    is a value between 0 and 255; it is floor(255 * o), or one more when
    the product rounds up to that integer. *)
Theorem flat_alpha_is_truncated (surface_alpha : Raster -> Z -> Z -> Z)
  (opacity : Q) (w : list Raster) :
  (0 <= opacity)%Q -> (opacity <= 1)%Q ->
  let alpha := Py.int (Binary64.fl (255 * opacity)) in
  0 <= alpha <= 255 /\
  Qfloor (255 * opacity) <= alpha <= Qfloor (255 * opacity) + 1 /\
  (alpha = Qfloor (255 * opacity) + 1 ->
   (Binary64.fl (255 * opacity) == inject_Z alpha)%Q) /\
  (forall (self : MovingMap.t) (map_ : geotiler.Map) (azimuth : option Q),
     MovingMap.opacity self = opacity ->
     Picture.rounded (MovingMap.corner_radius self) = None ->
     exists c w' r,
       MovingMap._redraw self map_ azimuth w = (Returns c, w') /\
       w' !! c = Some r /\
       forall x y, alpha_at surface_alpha r x y = alpha) /\
  (forall (self : JourneyMap.t) (m : geotiler.Map) (route : list (Q * Q)),
     JourneyMap.opacity self = opacity ->
     Picture.rounded (JourneyMap.corner_radius self) = None ->
     exists c w' r,
       JourneyMap.backdrop self m route w = (Returns c, w') /\
       w' !! c = Some r /\
       forall x y, alpha_at surface_alpha r x y = alpha).
Proof.
  intros H0 H1 alpha.
  assert (Hlo : (0 <= 255 * opacity)%Q) by Lqa.lra.
  assert (Hhi : (255 * opacity <= 255)%Q) by Lqa.lra.
  destruct (truncated_alpha (255 * opacity) Hlo Hhi)
    as (Hrange & Hfloor & Hup).
  fold alpha in Hrange, Hfloor, Hup.
  split; [exact Hrange|]. split; [exact Hfloor|]. split; [exact Hup|].
  split.
  - intros self map_ azimuth Ho Hr.
    destruct (redraw_run self map_ azimuth w) as (c & news & Hrun & _ & Hl).
    eexists c, _, _. split; [exact Hrun|]. split; [exact Hl|].
    intros x y. unfold Picture.moving.
    rewrite plain_finished_alpha by exact Hr. rewrite Ho. reflexivity.
  - intros self m route Ho Hr.
    destruct (backdrop_run self m route w) as (c & news & Hrun & _ & Hl).
    eexists c, _, _. split; [exact Hrun|]. split; [exact Hl|].
    intros x y. unfold Picture.journey.
    rewrite plain_finished_alpha by exact Hr. rewrite Ho. reflexivity.
Qed.

Lemma flat_alpha_is_truncated_witness :
  exists c w' r,
    MovingMap._redraw (Sample.moving (1 # 4)) Sample.view None Sample.frame
    = (Returns c, w') /\
    w' !! c = Some r /\
    forall x y, alpha_at (fun _ _ _ => 0) r x y = 63.
Proof.
  assert (E : Py.int (Binary64.fl (255 * (1 # 4))) = 63)
    by (vm_compute; reflexivity).
  destruct (flat_alpha_is_truncated (fun _ _ _ => 0) (1 # 4) Sample.frame
              ltac:(discriminate) ltac:(discriminate))
    as (_ & _ & _ & Hmoving & _).
  destruct (Hmoving (Sample.moving (1 # 4)) Sample.view None
              eq_refl eq_refl) as (c & w' & r & Hrun & Hl & Halpha).
  exists c, w', r. split; [exact Hrun|]. split; [exact Hl|].
  intros x y. rewrite Halpha. exact E.
Defined.

(** C4, as stated, fails: at opacity 1/4 the alpha band of the finished
    image is 63 at every pixel, whatever the drawing surface does, while
    round(0.25 * 255) = round(63.75) is 64. *)
Lemma quarter_opacity_alpha_is_not_rounded :
  exists c w' r,
    MovingMap._redraw (Sample.moving (1 # 4)) Sample.view None Sample.frame
    = (Returns c, w') /\
    w' !! c = Some r /\
    (forall surface_alpha x y, alpha_at surface_alpha r x y = 63) /\
    Described.rounded_alpha (1 # 4) = 64.
Proof.
  do 3 eexists. split; [vm_compute; reflexivity|].
  split; [reflexivity|]. split; [intros; reflexivity|reflexivity].
Qed.

(** The float nearest to 0.6 is a little below 0.6, and 255 times it is
    152.99999999999997 as a real number; the binary64 product is 153.0,
    and the alpha value is 153, one above the floor of the exact
    product. *)
Example six_tenths_opacity_alpha :
  let o := Binary64.fl (6 # 10) in
  o = (5404319552844595 # 9007199254740992)%Q /\
  Qfloor (255 * o) = 152 /\
  Binary64.fl (255 * o) = 153%Q /\
  Py.int (Binary64.fl (255 * o)) = 153.
Proof. repeat split; vm_compute; reflexivity. Qed.

(* ------------------------------------------------------------------ *)
(** ** The moving map, frame after frame *)

Lemma tiles_of_finished (corner_radius : option Z) (opacity : Q) (size : Z)
  (r : Raster) :
  tiles_of (Picture.finished corner_radius opacity size r) = tiles_of r.
Proof. unfold Picture.finished. destruct (Picture.rounded _); reflexivity. Qed.

Lemma tiles_of_moving (self : MovingMap.t) (map_ : geotiler.Map)
  (azimuth : option Q) :
  tiles_of (Picture.moving self map_ azimuth) = Some map_.
Proof.
  unfold Picture.moving. rewrite tiles_of_finished.
  destruct (Picture.heading _ _); reflexivity.
Qed.

Section MovingFrames.

Context `{Externals}.

Import MovingMap.

(** The two ways a draw call with a fix goes, from a consistent state and
    with a destination of the store: a redraw followed by the paste, or
    the paste alone. *)
Lemma draw_cases (self : t) (w : list Raster) (image : nat)
  (location : Point) (azimuth : option Q) (x y : Q) :
  consistent (self, w) ->
  lon location = Some x -> lat location = Some y ->
  (image < length w)%nat ->
  let map_ := Frames.view_at self x y in
  (PerceptibleMovementCheck.moved map_ location (perceptible self)
     = (Returns true, PerceptibleMovementCheck.mk (Some location)) /\
   exists (c : nat) (news : list Raster) (d : Raster),
     let self' :=
       set_cached (Some c)
         (set_perceptible (PerceptibleMovementCheck.mk (Some location)) self)
     in
     let r :=
       Picture.moving
         (set_perceptible (PerceptibleMovementCheck.mk (Some location)) self)
         map_ azimuth in
     draw image location azimuth (self, w)
       = (Returns tt, (self', <[image := Paste r (at_ self) d]> (w ++ news)))
     /\ (length w <= c)%nat /\ (w ++ news) !! c = Some r /\
     w !! image = Some d) \/
  (PerceptibleMovementCheck.moved map_ location (perceptible self)
     = (Returns false, perceptible self) /\
   exists (c : nat) (r d : Raster),
     cached self = Some c /\ w !! c = Some r /\ w !! image = Some d /\
     draw image location azimuth (self, w)
       = (Returns tt, (self, <[image := Paste r (at_ self) d]> w))).
Proof.
  intros Hs Hx Hy Himage map_.
  pose proof Hs as [Hlast Hcache]. cbn [fst snd] in Hlast, Hcache.
  assert (Hfix : has_fix location = true)
    by (unfold has_fix; rewrite Hx, Hy; reflexivity).
  destruct (lookup_lt_is_Some_2 w image Himage) as [d Hd].
  rewrite (draw_with_fix image location azimuth x y Hx Hy).
  destruct (moved_in_draw (perceptible self) map_ location Hfix)
    as [Hm|[Hm Hsome]].
  { intros l Hl. apply (Hlast l Hl). }
  - left. split; [exact Hm|].
    destruct (refresh_moved self w x y location azimuth Hm)
      as (c & news & Hr & Hc & Hl).
    cbv zeta in Hr, Hl. exists c, news, d. cbv zeta.
    split; [|split; [exact Hc|split; [exact Hl|exact Hd]]].
    unfold Py.bind at 1. rewrite Hr.
    unfold Py.bind, Py.gets, on_world, Py.within.
    cbn [fst snd cached set_cached at_ set_perceptible].
    assert (Hd' : (w ++ news) !! image = Some d)
      by (rewrite lookup_app_l by exact Himage; exact Hd).
    rewrite (paste_run (w ++ news) image c _ d _ Hl Hd'). reflexivity.
  - right. split; [exact Hm|].
    destruct (cached self) as [c|] eqn:Hc.
    2:{ destruct (PerceptibleMovementCheck.last_location (perceptible self))
          as [l|] eqn:Hl; [|contradiction].
        destruct (Hlast l eq_refl) as [_ Hn]. contradiction. }
    destruct (Hcache c eq_refl) as (r & Hr & _).
    exists c, r, d. split; [reflexivity|]. split; [exact Hr|].
    split; [exact Hd|].
    unfold Py.bind at 1.
    rewrite (refresh_not_moved self w x y location azimuth Hm).
    unfold Py.bind, Py.gets, on_world, Py.within. cbn [fst snd].
    rewrite Hc, (paste_run w image c r d _ Hr Hd). reflexivity.
Qed.

(** The movement check answers "not moved" only below the resolution. *)
Lemma not_moved_is_below_resolution (map_ : geotiler.Map)
  (last location : Point) (lx ly x y : Q) :
  lon last = Some lx -> lat last = Some ly ->
  lon location = Some x -> lat location = Some y ->
  fst (PerceptibleMovementCheck.moved map_ location
         (PerceptibleMovementCheck.mk (Some last))) = Returns false ->
  (Qabs (lx - x) < PerceptibleMovementCheck.x_resolution map_)%Q /\
  (Qabs (ly - y) < PerceptibleMovementCheck.y_resolution map_)%Q.
Proof.
  intros Hlx Hly Hx Hy.
  rewrite (moved_next map_ last location lx ly x y) by assumption.
  destruct (Py.ltb (Qabs (lx - x)) _) eqn:Ex; [|discriminate].
  destruct (Py.ltb (Qabs (ly - y)) _) eqn:Ey; [|discriminate].
  intros _. split; apply ltb_lt; assumption.
Qed.

(** The same position again is below any positive resolution. *)
Lemma same_position_not_moved (map_ : geotiler.Map) (location : Point)
  (x y : Q) :
  lon location = Some x -> lat location = Some y ->
  (0 < PerceptibleMovementCheck.x_resolution map_)%Q ->
  (0 < PerceptibleMovementCheck.y_resolution map_)%Q ->
  PerceptibleMovementCheck.moved map_ location
    (PerceptibleMovementCheck.mk (Some location))
  = (Returns false, PerceptibleMovementCheck.mk (Some location)).
Proof.
  intros Hx Hy Rx Ry.
  rewrite (moved_next map_ location location x y x y) by assumption.
  assert (Zero : forall q : Q, (Qabs (q - q) == 0)%Q).
  { intros q. unfold Qminus. rewrite Qplus_opp_r. reflexivity. }
  assert (Ex : Py.ltb (Qabs (x - x))
                 (PerceptibleMovementCheck.x_resolution map_) = true)
    by (apply ltb_lt; rewrite Zero; exact Rx).
  assert (Ey : Py.ltb (Qabs (y - y))
                 (PerceptibleMovementCheck.y_resolution map_) = true)
    by (apply ltb_lt; rewrite Zero; exact Ry).
  rewrite Ex, Ey. reflexivity.
Qed.

(** A draw call keeps the cached raster centred on the stored position. *)
Lemma draw_centred (s s' : t * list Raster) (image : nat) (location : Point)
  (azimuth : option Q) (o : Outcome unit) :
  consistent s -> Frames.centred s ->
  draw image location azimuth s = (o, s') ->
  Frames.centred s'.
Proof.
  destruct s as [self w]. intros Hs Hc Hd.
  destruct (lon location) as [x|] eqn:Hx;
    [destruct (lat location) as [y|] eqn:Hy|].
  2,3: unfold draw in Hd; rewrite Hx, ?Hy in Hd; injection Hd as <- <-;
       exact Hc.
  rewrite (draw_with_fix image location azimuth x y Hx Hy) in Hd.
  assert (Hfix : has_fix location = true)
    by (unfold has_fix; rewrite Hx, Hy; reflexivity).
  pose proof Hs as [Hlast _]. cbn [fst snd] in Hlast.
  assert (Hmid : exists self1 w1,
             refresh x y location azimuth (self, w) = (Returns tt, (self1, w1))
             /\ Frames.centred (self1, w1)).
  { destruct (moved_in_draw (perceptible self) (Frames.view_at self x y)
                location Hfix) as [Hm|[Hm _]].
    { intros l Hl. apply (Hlast l Hl). }
    - destruct (refresh_moved self w x y location azimuth Hm)
        as (c & news & Hr & _ & Hl).
      cbv zeta in Hr, Hl. eexists _, _. split; [exact Hr|].
      intros c' [= <-]. cbn [fst snd].
      eexists _, location, x, y. split; [exact Hl|].
      split; [reflexivity|]. split; [exact Hx|]. split; [exact Hy|].
      rewrite tiles_of_moving. reflexivity.
    - exists self, w. split; [|exact Hc].
      apply refresh_not_moved. exact Hm. }
  destruct Hmid as (self1 & w1 & Hr & Hc1).
  unfold Py.bind at 1 in Hd. rewrite Hr in Hd.
  unfold Py.bind, Py.gets, on_world, Py.within in Hd. cbn [fst snd] in Hd.
  destruct (Image.paste image (cached self1) (at_ self1) w1)
    as [o' w2] eqn:Hp.
  injection Hd as <- <-.
  destruct (paste_shape _ _ _ _ _ _ Hp) as (_ & Hother & Hdest).
  intros c Hcached. cbn [fst snd] in *.
  destruct (Hc1 c Hcached) as (r & l & lx & ly & Hr1 & Hl & Hlx & Hly & Ht).
  destruct (decide (c = image)) as [->|Hne].
  - destruct (Hdest r Hr1) as [Hsame|[s0 Hpasted]].
    + exists r, l, lx, ly. repeat split; assumption.
    + exists (Paste s0 (at_ self1) r), l, lx, ly. repeat split; assumption.
  - exists r, l, lx, ly. rewrite (Hother c Hne). repeat split; assumption.
Qed.

Lemma reachable_centred (s : t * list Raster) :
  reachable s -> Frames.centred s.
Proof.
  induction 1 as [| s image location azimuth o s' Hreach IH Hd
                  | self w w' _ IH Hlen Hsame].
  - intros c [=].
  - eapply draw_centred; [apply reachable_consistent| |]; eassumption.
  - intros c Hc. cbn [fst snd] in *.
    destruct (IH c Hc) as (r & l & x & y & Hr & Hrest).
    exists r, l, x, y. rewrite (Hsame c Hc). split; assumption.
Qed.

(** X2: while the tile renderer returns normally, so that every draw call
    that stores a position also stores the raster drawn around it, the
    raster a draw call pastes is never more than a pixel off: its tiles
    are those of a view of the widget's zoom and size, centred either on
    the current position or on a position whose longitude and latitude
    differ from the current ones by less than the resolution of the view
    around the current position.  (After a draw call in which the
    renderer failed, the stored position is ahead of the cached raster,
    and this no longer holds; such states are not among those of
    [MovingMap.reachable].) *)
Theorem pasted_raster_is_within_a_pixel (s : t * list Raster) (image : nat)
  (location : Point) (azimuth : option Q) (x y : Q) :
  reachable s ->
  lon location = Some x -> lat location = Some y ->
  (image < length (snd s))%nat ->
  exists (s' : t * list Raster) (r d : Raster) (cx cy : Q),
    draw image location azimuth s = (Returns tt, s') /\
    snd s' !! image = Some (Paste r (at_ (fst s)) d) /\
    tiles_of r = Some (Frames.view_at (fst s) cx cy) /\
    ((cx, cy) = (x, y) \/
     (let view := Frames.view_at (fst s) x y in
      Qabs (cx - x) < PerceptibleMovementCheck.x_resolution view /\
      Qabs (cy - y) < PerceptibleMovementCheck.y_resolution view)%Q).
Proof.
  intros Hreach Hx Hy Himage.
  pose proof (reachable_consistent s Hreach) as Hs.
  pose proof (reachable_centred s Hreach) as Hc.
  destruct s as [self w]. cbn [fst snd] in *.
  destruct (draw_cases self w image location azimuth x y Hs Hx Hy Himage)
    as [(_ & c & news & d & Hd & _ & _ & Hdest)
       |(Hm & c & r & d & Hcached & Hr & Hdest & Hd)]; cbv zeta in *.
  - eexists _, _, d, x, y. split; [exact Hd|]. cbn [snd].
    split; [|split; [apply tiles_of_moving|left; reflexivity]].
    apply list_lookup_insert_eq. rewrite length_app. lia.
  - destruct (Hc c Hcached) as (r' & l & lx & ly & Hr' & Hl & Hlx & Hly & Ht).
    cbn [fst snd] in *. rewrite Hr in Hr'. injection Hr' as <-.
    eexists _, r, d, lx, ly. split; [exact Hd|]. cbn [snd].
    split; [apply list_lookup_insert_eq; exact Himage|].
    split; [exact Ht|]. right.
    apply (not_moved_is_below_resolution _ l location lx ly x y Hlx Hly Hx Hy).
    destruct (perceptible self) as [last]. cbn in Hl. subst last.
    rewrite Hm. reflexivity.
Qed.

(** X3: a draw call changes no image of the store but its destination, takes
    no image away, and leaves the configuration of the widget as it is --
    whether it returns or raises. *)
Theorem draw_changes_the_destination_only (s s' : t * list Raster)
  (image : nat) (location : Point) (azimuth : option Q) (o : Outcome unit) :
  reachable s ->
  draw image location azimuth s = (o, s') ->
  (length (snd s) <= length (snd s'))%nat /\
  (forall i, (i < length (snd s))%nat -> i <> image ->
             snd s' !! i = snd s !! i) /\
  (at_ (fst s'), rotate (fst s'), size (fst s'), zoom (fst s'),
   corner_radius (fst s'), opacity (fst s'))
  = (at_ (fst s), rotate (fst s), size (fst s), zoom (fst s),
     corner_radius (fst s), opacity (fst s)) /\
  (hypotenuse (fst s'), half_width_height (fst s'), bounds (fst s'))
  = (hypotenuse (fst s), half_width_height (fst s), bounds (fst s)).
Proof.
  intros Hreach Hd. apply reachable_consistent in Hreach.
  destruct s as [self w]. cbn [fst snd].
  destruct (lon location) as [x|] eqn:Hx;
    [destruct (lat location) as [y|] eqn:Hy|].
  2,3: unfold draw in Hd; rewrite Hx, ?Hy in Hd; injection Hd as <- <-;
       cbn [fst snd]; repeat split; auto.
  rewrite (draw_with_fix image location azimuth x y Hx Hy) in Hd.
  assert (Hfix : has_fix location = true)
    by (unfold has_fix; rewrite Hx, Hy; reflexivity).
  pose proof Hreach as [Hlast _]. cbn [fst snd] in Hlast.
  assert (Hmid : exists self1 news,
             refresh x y location azimuth (self, w)
             = (Returns tt, (self1, w ++ news)) /\
             (at_ self1, rotate self1, size self1, zoom self1,
              corner_radius self1, opacity self1)
             = (at_ self, rotate self, size self, zoom self,
                corner_radius self, opacity self) /\
             (hypotenuse self1, half_width_height self1, bounds self1)
             = (hypotenuse self, half_width_height self, bounds self)).
  { destruct (moved_in_draw (perceptible self) (Frames.view_at self x y)
                location Hfix) as [Hm|[Hm _]].
    { intros l Hl. apply (Hlast l Hl). }
    - destruct (refresh_moved self w x y location azimuth Hm)
        as (c & news & Hr & _ & _).
      cbv zeta in Hr. eexists _, news. split; [exact Hr|].
      split; reflexivity.
    - exists self, []. rewrite app_nil_r.
      split; [apply refresh_not_moved; exact Hm|]. split; reflexivity. }
  destruct Hmid as (self1 & news & Hr & Hconf1 & Hconf2).
  unfold Py.bind at 1 in Hd. rewrite Hr in Hd.
  unfold Py.bind, Py.gets, on_world, Py.within in Hd. cbn [fst snd] in Hd.
  destruct (Image.paste image (cached self1) (at_ self1) (w ++ news))
    as [o' w2] eqn:Hp.
  injection Hd as <- <-. cbn [fst snd].
  destruct (paste_shape _ _ _ _ _ _ Hp) as (Hlen & Hother & _).
  split; [rewrite Hlen, length_app; lia|].
  split; [|split; assumption].
  intros i Hi Hne. rewrite (Hother i Hne). apply lookup_app_l. exact Hi.
Qed.

(** X1: once a frame has been drawn at a position, every further draw call at
    that position is a cache hit, whatever the heading has become: the
    call returns, creates no image, redraws and re-rotates nothing, keeps
    the widget as it is, and pastes the cached raster onto its
    destination.  This holds for views of positive resolution. *)
Theorem same_position_is_a_cache_hit (s0 s1 s : t * list Raster)
  (image0 : nat) (location : Point) (azimuth0 : option Q) (x y : Q)
  (o : Outcome unit) :
  reachable s0 ->
  lon location = Some x -> lat location = Some y ->
  (image0 < length (snd s0))%nat ->
  (0 < PerceptibleMovementCheck.x_resolution (Frames.view_at (fst s0) x y))%Q ->
  (0 < PerceptibleMovementCheck.y_resolution (Frames.view_at (fst s0) x y))%Q ->
  draw image0 location azimuth0 s0 = (o, s1) ->
  Frames.stays location s1 s ->
  fst s = fst s1 /\
  forall (image : nat) (azimuth : option Q),
    (image < length (snd s))%nat ->
    exists (c : nat) (r d : Raster),
      cached (fst s1) = Some c /\
      snd s !! c = Some r /\
      snd s !! image = Some d /\
      draw image location azimuth s
        = (Returns tt,
           (fst s1, <[image := Paste r (at_ (fst s1)) d]> (snd s))).
Proof.
  intros Hreach Hx Hy Himage0 Rx Ry Hd0 Hstays.
  pose proof (reachable_consistent s0 Hreach) as Hs0.
  set (hit := fun s : t * list Raster =>
         consistent s /\
         PerceptibleMovementCheck.moved (Frames.view_at (fst s) x y) location
           (perceptible (fst s)) = (Returns false, perceptible (fst s))).
  assert (H1 : hit s1).
  { split; [eapply draw_consistent; eassumption|].
    destruct s0 as [self w]. cbn [fst snd] in *.
    destruct (draw_cases self w image0 location azimuth0 x y Hs0 Hx Hy Himage0)
      as [(_ & c & news & d & Hd & _)|(Hm & c & r & d & _ & _ & _ & Hd)];
      cbv zeta in Hd; rewrite Hd in Hd0; injection Hd0 as <- <-;
      cbn [fst snd].
    - apply (same_position_not_moved _ location x y Hx Hy Rx Ry).
    - exact Hm. }
  assert (Hall : hit s /\ fst s = fst s1).
  { induction Hstays as [s1 | s1 s' image azimuth o' s'' _ IH Himage Hd
                         | s1 self w w' _ IH Hlen Hsame].
    - split; [exact H1|reflexivity].
    - destruct (IH Hd0 H1) as [[Hs' Hm'] Heq].
      destruct s' as [self' w']. cbn [fst snd] in *.
      destruct (draw_cases self' w' image location azimuth x y Hs' Hx Hy
                  Himage)
        as [(Hm & _)|(_ & c & r & d & _ & _ & _ & Hd')].
      + cbv zeta in Hm. rewrite Hm in Hm'. discriminate Hm'.
      + cbv zeta in Hd'. rewrite Hd' in Hd. injection Hd as <- <-.
        cbn [fst snd]. split; [|exact Heq]. split; [|exact Hm'].
        eapply draw_consistent; [exact Hs'|exact Hd'].
    - destruct (IH Hd0 H1) as [[[Hl Hc] Hm'] Heq]. cbn [fst snd] in *.
      split; [|exact Heq]. split; [|exact Hm']. split; cbn [fst snd].
      + exact Hl.
      + intros c Hcached. rewrite (Hsame c Hcached). apply (Hc c Hcached). }
  destruct Hall as [[Hs Hm] Heq]. split; [exact Heq|].
  intros image azimuth Himage.
  destruct s as [self w]. cbn [fst snd] in *.
  destruct (draw_cases self w image location azimuth x y Hs Hx Hy Himage)
    as [(Hm' & _)|(_ & c & r & d & Hc & Hr & Hdest & Hd)].
  - cbv zeta in Hm'. rewrite Hm' in Hm. discriminate Hm.
  - cbv zeta in Hd. exists c, r, d. rewrite <- Heq.
    repeat split; assumption.
Qed.

End MovingFrames.

Lemma pasted_raster_is_within_a_pixel_witness :
  exists (s' : MovingMap.t * list Raster) (r d : Raster) (cx cy : Q),
    @MovingMap.draw Sample.flat 0%nat (Sample.position 1 2) None
      (Sample.moving (1 # 4), Sample.frame) = (Returns tt, s') /\
    snd s' !! 0%nat = Some (Paste r (10, 20) d) /\
    tiles_of r = Some (Frames.view_at (Sample.moving (1 # 4)) cx cy).
Proof.
  destruct (@pasted_raster_is_within_a_pixel Sample.flat
              (Sample.moving (1 # 4), Sample.frame) 0%nat
              (Sample.position 1 2) None 1%Q 2%Q)
    as (s' & r & d & cx & cy & Hd & Hp & Ht & _).
  - apply MovingMap.reach_init.
  - reflexivity.
  - reflexivity.
  - simpl. lia.
  - exists s', r, d, cx, cy. split; [exact Hd|]. split; [exact Hp|exact Ht].
Defined.

Lemma draw_changes_the_destination_only_witness :
  let s := (Sample.moving (1 # 4), Sample.frame ++ [New (8, 8) 0]) in
  let result :=
    @MovingMap.draw Sample.flat 0%nat (Sample.position 1 2) (Some 90%Q) s in
  (length (snd s) <= length (snd (snd result)))%nat /\
  (forall i, (i < length (snd s))%nat -> i <> 0%nat ->
             snd (snd result) !! i = snd s !! i).
Proof.
  intros s result.
  destruct (@draw_changes_the_destination_only Sample.flat s (snd result)
              0%nat (Sample.position 1 2) (Some 90%Q) (fst result))
    as (Hlen & Hother & _).
  - apply MovingMap.reach_init.
  - reflexivity.
  - split; [exact Hlen|exact Hother].
Defined.

Lemma same_position_is_a_cache_hit_witness :
  let s0 := (Sample.moving (1 # 4), Sample.frame) in
  let s1 :=
    snd (@MovingMap.draw Sample.flat 0%nat (Sample.position 1 2) None s0) in
  exists (c : nat) (r d : Raster),
    MovingMap.cached (fst s1) = Some c /\
    snd s1 !! c = Some r /\
    snd s1 !! 0%nat = Some d /\
    @MovingMap.draw Sample.flat 0%nat (Sample.position 1 2) (Some 90%Q) s1
    = (Returns tt,
       (fst s1, <[0%nat := Paste r (MovingMap.at_ (fst s1)) d]> (snd s1))).
Proof.
  intros s0 s1.
  destruct (@same_position_is_a_cache_hit Sample.flat s0 s1 s1 0%nat
              (Sample.position 1 2) None 1%Q 2%Q
              (fst (@MovingMap.draw Sample.flat 0%nat (Sample.position 1 2)
                      None s0)))
    as [_ Hnext].
  - apply MovingMap.reach_init.
  - reflexivity.
  - reflexivity.
  - simpl. lia.
  - reflexivity.
  - reflexivity.
  - reflexivity.
  - apply Frames.stays_here.
  - apply (Hnext 0%nat (Some 90%Q)). simpl. lia.
Defined.

(* ------------------------------------------------------------------ *)
(** ** Rotation and masking *)

Lemma rotation_of_finished (corner_radius : option Z) (opacity : Q) (size : Z)
  (r : Raster) :
  rotation_of (Picture.finished corner_radius opacity size r) = rotation_of r.
Proof. unfold Picture.finished. destruct (Picture.rounded _); reflexivity. Qed.

Lemma rotation_of_moving (self : MovingMap.t) (map_ : geotiler.Map)
  (azimuth : option Q) :
  rotation_of (Picture.moving self map_ azimuth)
  = Picture.heading (MovingMap.rotate self) azimuth.
Proof.
  unfold Picture.moving. rewrite rotation_of_finished.
  destruct (Picture.heading _ _); reflexivity.
Qed.

(** X5: given that the tile renderer and the heading source return,
    [_redraw] returns an image.  The image is unrotated when rotation is
    off, when there is no heading and when the heading is zero.
    Otherwise it is rotated by the heading itself when that is positive
    and by the binary64 sum 360 + heading when it is negative: an angle
    from 0 to 360, both included, for the negative headings from -360 on,
    and an angle that is not positive for the headings below -360, which
    are not reduced. *)
Theorem redraw_rotates_by_the_heading (self : MovingMap.t)
  (map_ : geotiler.Map) (azimuth : option Q) (w : list Raster) :
  exists (c : nat) (w' : list Raster) (r : Raster),
    MovingMap._redraw self map_ azimuth w = (Returns c, w') /\
    w' !! c = Some r /\
    (MovingMap.rotate self = false -> rotation_of r = None) /\
    (azimuth = None -> rotation_of r = None) /\
    (forall azi, azimuth = Some azi -> (azi == 0)%Q -> rotation_of r = None) /\
    (forall azi,
       MovingMap.rotate self = true -> azimuth = Some azi -> ~ (azi == 0)%Q ->
       exists angle,
         rotation_of r = Some angle /\
         ((0 <= azi)%Q -> (angle == azi)%Q) /\
         ((azi < 0)%Q ->
          angle = Binary64.fl (360 + azi) /\
          (angle <= 360)%Q /\
          ((-360 <= azi)%Q -> (0 <= angle)%Q) /\
          ((azi < -360)%Q -> (angle <= 0)%Q))).
Proof.
  destruct (redraw_run self map_ azimuth w) as (c & news & Hrun & _ & Hl).
  exists c, (w ++ news), (Picture.moving self map_ azimuth).
  split; [exact Hrun|]. split; [exact Hl|].
  rewrite rotation_of_moving. unfold Picture.heading.
  split; [|split; [|split]].
  - intros ->. destruct azimuth; [rewrite andb_false_r|]; reflexivity.
  - intros ->. reflexivity.
  - intros azi -> E. apply Qeq_bool_iff in E. rewrite E. reflexivity.
  - intros azi -> -> Hne.
    destruct (Qeq_bool azi 0) eqn:E;
      [apply Qeq_bool_iff in E; contradiction|].
    cbn [negb andb].
    destruct (Qle_bool 0 azi) eqn:Hsign.
    + apply Qle_bool_iff in Hsign.
      exists (0 + azi)%Q. split; [reflexivity|].
      split; [intros _; ring|]. intros Hneg. exfalso. Lqa.lra.
    + exists (Binary64.fl (360 + azi)). split; [reflexivity|].
      split.
      { intros Hpos. apply Qle_bool_iff in Hpos. congruence. }
      intros Hneg. split; [reflexivity|].
      assert (F360 : Binary64.fl 360 = 360%Q)
        by (apply (fl_inject 360); lia).
      assert (F0 : Binary64.fl 0 = 0%Q) by reflexivity.
      split; [|split].
      * apply Qle_trans with (Binary64.fl 360);
          [apply fl_monotone; Lqa.lra|rewrite F360; apply Qle_refl].
      * intros Hlo. apply Qle_trans with (Binary64.fl 0);
          [rewrite F0; apply Qle_refl|apply fl_monotone; Lqa.lra].
      * intros Hlow. apply Qle_trans with (Binary64.fl 0);
          [apply fl_monotone; Lqa.lra|rewrite F0; apply Qle_refl].
Qed.

(** A negative heading too small to show in the sum gives a rotation by
    360.0, not by an angle below 360. *)
Example tiny_negative_heading :
  let azi := (- (1 # 1180591620717411303424))%Q in
  Binary64.fl azi = azi /\
  Picture.heading true (Some azi) = Some 360%Q.
Proof. split; vm_compute; reflexivity. Qed.

(** X6: [rounded_corners] works in place: it returns the very image it was
    given, with its alpha band set from a mask; the mask is the one image
    it creates, it has the size of the frame and is filled, inside a
    rounded rectangle that spans the whole frame, with int(opacity * 255),
    a value between 0 and 255 for opacities between 0 and 1.  No other
    image changes.  Given an image that is not in the store it raises and
    changes nothing. *)
Theorem rounded_corners_masks_in_place (w : list Raster) (frame : nat)
  (radius : Z) (opacity : Q) :
  match w !! frame with
  | Some r =>
      let mask :=
        RoundedRectangle
          (0, 0, fst (raster_size r) - 1, snd (raster_size r) - 1) radius
          (Some (Py.int (Binary64.fl (opacity * 255)))) None
          (New (raster_size r) 0) in
      rounded_corners frame radius opacity w
        = (Returns frame, <[frame := PutAlphaMask mask r]> w ++ [mask]) /\
      raster_size mask = raster_size r /\
      ((0 <= opacity)%Q -> (opacity <= 1)%Q ->
       0 <= Py.int (Binary64.fl (opacity * 255)) <= 255)
  | None =>
      rounded_corners frame radius opacity w = (Raises InvalidReference, w)
  end.
Proof.
  unfold rounded_corners, Image.size, Image.new, Image.putalpha_mask,
    ImageDraw.rounded_rectangle.
  destruct (w !! frame) as [r|] eqn:Hr.
  - cbv zeta. split; [|split; [reflexivity|]].
    + pose proof (lookup_lt_Some _ _ _ Hr) as Hlt.
      assert (Hlast : forall x : Raster, (w ++ [x]) !! length w = Some x).
      { intros x. rewrite lookup_app_r by lia.
        replace (length w - length w)%nat with 0%nat by lia. reflexivity. }
      assert (Hset : forall x y : Raster,
                 <[length w := y]> (w ++ [x]) = w ++ [y]).
      { intros x y. replace (length w) with (length w + 0)%nat at 1 by lia.
        rewrite insert_app_r. reflexivity. }
      unfold Py.bind, Py.ret, Image.content, Image.alloc, Image.update.
      rewrite Hr, Hlast, Hset, Hlast.
      rewrite (lookup_app_l w) by exact Hlt. rewrite Hr.
      rewrite insert_app_l by exact Hlt. reflexivity.
    + intros H0 H1.
      assert (Hlo : (0 <= opacity * 255)%Q) by Lqa.lra.
      assert (Hhi : (opacity * 255 <= 255)%Q) by Lqa.lra.
      apply (truncated_alpha (opacity * 255) Hlo Hhi).
  - unfold Py.bind, Image.content. rewrite Hr. reflexivity.
Qed.

(* ------------------------------------------------------------------ *)
(** ** The journey map, frame after frame *)

Section JourneyFrames.

Context `{Externals}.

Import JourneyMap.

(** The route is projected in full or not at all: the comprehension
    raises [TypeError] as soon as it meets a position that is kept and
    lacks a coordinate. *)
Lemma plots_from_raises (m : geotiler.Map) (encloses : Point -> bool)
  (route : list Point) :
  Exists (fun p => has_fix p = false)
    (Described.not_enclosed encloses route) ->
  forall acc, plots_from m encloses route acc = Raises TypeError.
Proof.
  unfold Described.not_enclosed.
  induction route as [|p rest IH]; simpl; intros Hex acc.
  - inversion Hex.
  - destruct (negb (encloses p)); [|apply IH; exact Hex].
    unfold rev_geocode_point.
    inversion Hex as [p' kept Hp|p' kept Hrest]; subst.
    + unfold has_fix in Hp.
      destruct (lon p); [destruct (lat p)|];
        [discriminate Hp|reflexivity|reflexivity].
    + destruct (lon p); [destruct (lat p)|]; try reflexivity.
      apply IH. exact Hrest.
Qed.


(** X8: when the view of the route can be built, the first [_init_maybe]
    stores it with a zoom that is never above 18: the view of the
    bounding box itself when its zoom is at most 18, and that view with
    the zoom 18 assigned to it otherwise.  The view is stored whether the
    call then returns or raises while projecting the route. *)
Theorem journey_view_zoom_is_capped (self : t) (w : list Raster)
  (m0 : geotiler.Map) :
  map_ self = None ->
  Backdrop.extent_view self = Returns m0 ->
  exists m,
    map_ (fst (snd (_init_maybe (self, w)))) = Some m /\
    m = (if 18 <? geotiler.zoom m0 then set_zoom 18 m0 else m0) /\
    geotiler.zoom m = Z.min 18 (geotiler.zoom m0) /\
    geotiler.zoom m <= 18.
Proof.
  intros Hmap Hextent. exists (capped m0).
  assert (Hview : Backdrop.view self = Returns (capped m0))
    by (unfold Backdrop.view; rewrite Hextent; reflexivity).
  split.
  - pose proof (init_maybe_fresh self w Hmap) as Hi. rewrite Hview in Hi.
    destruct (plots _ _ _) as [route|e].
    + destruct Hi as (b & news & -> & _). reflexivity.
    + rewrite Hi. reflexivity.
  - unfold capped. split; [reflexivity|].
    destruct (18 <? geotiler.zoom m0) eqn:Hz.
    + apply Z.ltb_lt in Hz. cbn. split; lia.
    + apply Z.ltb_ge in Hz. split; lia.
Qed.

(** X9: a draw call of an initialised journey map with a fix: the backdrop is
    copied, the marker is drawn on the copy around the pixel that
    [rev_geocode] gives for the position, wherever that is, and the copy
    is pasted onto the destination at the widget's offset.  The call
    creates that one image, changes no other image than the destination,
    and leaves the widget as it is; the backdrop itself stays without
    marker. *)
Theorem journey_draw_marks_a_copy (self : t) (w : list Raster)
  (image_ b : nat) (m : geotiler.Map) (r d : Raster) (location : Point)
  (x y : Q) :
  map_ self = Some m -> image self = Some b ->
  w !! b = Some r -> w !! image_ = Some d ->
  lon location = Some x -> lat location = Some y ->
  let frame := Picture.marker (rev_geocode m (x, y)) 6 r in
  draw image_ location (self, w)
    = (Returns tt,
       (self, <[image_ := Paste frame (at_ self) d]> (w ++ [frame]))) /\
  (b <> image_ ->
   (<[image_ := Paste frame (at_ self) d]> (w ++ [frame])) !! b = Some r).
Proof.
  intros Hmap Himage Hb Hd Hx Hy frame.
  pose proof (lookup_lt_Some _ _ _ Hb) as Hblt.
  pose proof (lookup_lt_Some _ _ _ Hd) as Hdlt.
  split.
  - unfold draw, _init_maybe, Image.copy, draw_marker, ImageDraw.ellipse,
      Image.paste, rev_geocode_point.
    unfold Py.bind, Py.gets, Py.ret, Py.lift, on_world, Py.within,
      Image.content, Image.alloc, Image.update.
    cbn [fst snd]. rewrite Hmap. cbn [fst snd]. rewrite Himage, Hmap.
    cbn [fst snd]. rewrite Hb, Hx, Hy. cbn [fst snd].
    assert (Hlast : forall z : Raster, (w ++ [z]) !! length w = Some z).
    { intros z. rewrite lookup_app_r by lia.
      replace (length w - length w)%nat with 0%nat by lia. reflexivity. }
    assert (Hset : forall z z' : Raster,
               <[length w := z']> (w ++ [z]) = w ++ [z']).
    { intros z z'. replace (length w) with (length w + 0)%nat at 1 by lia.
      rewrite insert_app_r. reflexivity. }
    rewrite Hlast, Hset. cbn [fst snd]. rewrite Hlast.
    rewrite (lookup_app_l w) by exact Hdlt. rewrite Hd.
    destruct self. reflexivity.
  - intros Hne. rewrite list_lookup_insert_ne by congruence.
    rewrite lookup_app_l by exact Hblt. exact Hb.
Qed.

(** X10: the first draw call of a journey map, at a position with a fix,
    when the view of the route can be built, the tile renderer returns
    and the kept positions all have coordinates: the call returns, the
    widget keeps the capped view of the bounding box and a backdrop that
    shows the tiles, the polyline of the kept positions and the finishing
    step, and no marker; the destination receives a marked copy of it. *)
Theorem journey_first_draw_builds_the_backdrop (self : t) (w : list Raster)
  (image_ : nat) (d : Raster) (location : Point) (x y : Q)
  (m : geotiler.Map) :
  map_ self = None ->
  Backdrop.view self = Returns m ->
  Forall (fun p => has_fix p = true)
    (Described.not_enclosed (privacy_zone self) (timeseries self)) ->
  w !! image_ = Some d ->
  lon location = Some x -> lat location = Some y ->
  exists (route : list (Q * Q)) (b : nat) (self' : t) (w' : list Raster),
    Forall2 (projects m)
      (Described.not_enclosed (privacy_zone self) (timeseries self)) route /\
    draw image_ location (self, w) = (Returns tt, (self', w')) /\
    map_ self' = Some m /\ image self' = Some b /\
    w' !! b = Some (Picture.journey self m route) /\
    has_ellipse (Picture.journey self m route) = false /\
    w' !! image_
      = Some (Paste
                (Picture.marker (rev_geocode m (x, y)) 6
                   (Picture.journey self m route))
                (at_ self) d).
Proof.
  intros Hmap Hview Hfix Hd Hx Hy.
  pose proof (lookup_lt_Some _ _ _ Hd) as Hdlt.
  destruct (kept_positions_project m (privacy_zone self) (timeseries self)
              Hfix) as (route & Hp & Hall).
  pose proof (init_maybe_fresh self w Hmap) as Hi.
  rewrite Hview, Hp in Hi.
  destruct Hi as (b & news & Hi & Hlen & Hb).
  assert (Hd' : (w ++ news) !! image_ = Some d)
    by (rewrite lookup_app_l by exact Hdlt; exact Hd).
  assert (Hne : b <> image_) by lia.
  destruct (journey_draw_marks_a_copy (set_image b (set_map m self))
              (w ++ news) image_ b m _ d location x y
              eq_refl eq_refl Hb Hd' Hx Hy) as [Hdraw Hkeep].
  cbv zeta in Hdraw, Hkeep.
  exists route, b. eexists _, _. split; [exact Hall|].
  split.
  - unfold draw in *. unfold Py.bind at 1. rewrite Hi.
    unfold Py.bind at 1 in Hdraw.
    assert (Hagain : _init_maybe (set_image b (set_map m self), w ++ news)
                     = (Returns tt, (set_image b (set_map m self), w ++ news)))
      by reflexivity.
    rewrite Hagain in Hdraw. exact Hdraw.
  - split; [reflexivity|]. split; [reflexivity|].
    split; [apply Hkeep; exact Hne|].
    split.
    + unfold Picture.journey, Picture.finished.
      destruct (Picture.rounded _); reflexivity.
    + apply list_lookup_insert_eq. rewrite length_app. simpl.
      rewrite length_app. lia.
Qed.

(** X11: a journey map whose view can be built but whose route has a kept
    position without coordinates never draws: the first draw call raises
    [TypeError] while projecting the route, with the view already stored
    and no backdrop; from then on every draw call, with or without a fix,
    skips the initialisation and raises [AttributeError].  None of these
    calls changes the store. *)
Theorem journey_with_a_gap_in_its_route_never_draws (self : t)
  (m : geotiler.Map) :
  map_ self = None -> image self = None ->
  Backdrop.view self = Returns m ->
  Exists (fun p => has_fix p = false)
    (Described.not_enclosed (privacy_zone self) (timeseries self)) ->
  let self' := set_map m self in
  (forall w image_ location,
     draw image_ location (self, w) = (Raises TypeError, (self', w))) /\
  (forall w image_ location,
     draw image_ location (self', w) = (Raises AttributeError, (self', w))).
Proof.
  intros Hmap Himage Hview Hex self'. split.
  - intros w image_ location.
    pose proof (init_maybe_fresh self w Hmap) as Hi. rewrite Hview in Hi.
    unfold plots in Hi. rewrite (plots_from_raises _ _ _ Hex) in Hi.
    unfold draw, Py.bind at 1. rewrite Hi. reflexivity.
  - intros w image_ location.
    unfold self', draw, _init_maybe, Py.bind, Py.gets, Py.ret, Py.raise.
    cbn [fst snd map_ image set_map]. rewrite Himage. reflexivity.
Qed.

End JourneyFrames.

Lemma journey_view_zoom_is_capped_witness :
  exists m,
    JourneyMap.map_
      (fst (snd (@JourneyMap._init_maybe Sample.flat
                   (Sample.journey, Sample.frame)))) = Some m /\
    geotiler.zoom m = 18.
Proof.
  destruct (@journey_view_zoom_is_capped Sample.flat Sample.journey
              Sample.frame _ eq_refl eq_refl) as (m & Hm & _ & Hz & _).
  exists m. split; [exact Hm|exact Hz].
Defined.

Lemma journey_draw_marks_a_copy_witness :
  let self :=
    JourneyMap.set_image 1%nat (JourneyMap.set_map Sample.view Sample.journey)
  in
  let w := Sample.frame ++ [Tiles Sample.view] in
  let frame :=
    Picture.marker (@rev_geocode Sample.flat Sample.view (1, 1)%Q) 6
      (Tiles Sample.view) in
  @JourneyMap.draw Sample.flat 0%nat (Sample.position 1 1) (self, w)
  = (Returns tt,
     (self, <[0%nat := Paste frame (10, 20) (New (640, 480) 0)]>
              (w ++ [frame]))).
Proof.
  intros self w frame.
  apply (@journey_draw_marks_a_copy Sample.flat self w 0%nat 1%nat
           Sample.view (Tiles Sample.view) (New (640, 480) 0)
           (Sample.position 1 1) 1%Q 1%Q); reflexivity.
Defined.

Lemma journey_first_draw_builds_the_backdrop_witness :
  exists (m : geotiler.Map) (route : list (Q * Q)) (b : nat)
         (self' : JourneyMap.t) (w' : list Raster),
    @Backdrop.view Sample.flat Sample.journey = Returns m /\
    @JourneyMap.draw Sample.flat 0%nat (Sample.position 1 1)
      (Sample.journey, Sample.frame) = (Returns tt, (self', w')) /\
    JourneyMap.image self' = Some b /\
    w' !! b = Some (Picture.journey Sample.journey m route).
Proof.
  destruct (@journey_first_draw_builds_the_backdrop Sample.flat
              Sample.journey Sample.frame 0%nat (New (640, 480) 0)
              (Sample.position 1 1) 1%Q 1%Q _ eq_refl eq_refl)
    as (route & b & self' & w' & _ & Hd & _ & Hi & Hb & _).
  - repeat constructor.
  - reflexivity.
  - reflexivity.
  - reflexivity.
  - eexists _, route, b, self', w'. split; [reflexivity|].
    split; [exact Hd|]. split; [exact Hi|exact Hb].
Defined.

Lemma journey_with_a_gap_in_its_route_never_draws_witness :
  let gapped :=
    JourneyMap.init [Sample.position 0 0; Sample.no_fix; Sample.position 2 2]
      (10, 20) 256 None (1 # 4) (fun _ => false) in
  exists self',
    @JourneyMap.draw Sample.flat 0%nat (Sample.position 1 1)
      (gapped, Sample.frame) = (Raises TypeError, (self', Sample.frame)) /\
    @JourneyMap.draw Sample.flat 0%nat (Sample.position 1 1)
      (self', Sample.frame) = (Raises AttributeError, (self', Sample.frame)).
Proof.
  intros gapped.
  destruct (@journey_with_a_gap_in_its_route_never_draws Sample.flat gapped
              _ eq_refl eq_refl eq_refl)
    as (Hfirst & Hnext).
  - apply Exists_cons_tl. apply Exists_cons_hd. reflexivity.
  - eexists. split; [apply Hfirst|apply Hnext].
Defined.

(* ------------------------------------------------------------------ *)
(** ** Natural sort keys *)

Section SplitDigits.

Import generate_examples.

Lemma re_split_not_nil (s : list ascii) : re_split s <> [].
Proof.
  induction s as [|c rest IH]; [discriminate|].
  simpl. unfold push. destruct (re_split rest) as [|t0 more]; [discriminate|].
  destruct (is_digit c); [|discriminate].
  destruct t0, more; discriminate.
Qed.

Lemma re_split_concat (s : list ascii) : concat (re_split s) = s.
Proof.
  induction s as [|c rest IH]; [reflexivity|].
  simpl. unfold push. pose proof (re_split_not_nil rest) as Hne.
  destruct (re_split rest) as [|t0 more]; [contradiction|].
  destruct (is_digit c).
  - destruct t0 as [|c0 t0], more as [|d more']; simpl in *; congruence.
  - simpl in *. congruence.
Qed.

Lemma re_split_alternating (s : list ascii) : alternating (re_split s).
Proof.
  induction s as [|c rest IH]; [constructor; reflexivity|].
  simpl. unfold push.
  destruct IH as [t Ht|t d more Ht Hd Hdig Hrest Hmax].
  - destruct (is_digit c) eqn:Hc.
    + destruct t as [|c0 t].
      * apply alt_run.
        -- reflexivity.
        -- discriminate.
        -- simpl. rewrite Hc. reflexivity.
        -- constructor; reflexivity.
        -- intros ? ? ? [=].
      * apply alt_run.
        -- reflexivity.
        -- discriminate.
        -- simpl. rewrite Hc. reflexivity.
        -- constructor; exact Ht.
        -- intros ? ? ? [=].
    + constructor. simpl. rewrite Hc. exact Ht.
  - destruct (is_digit c) eqn:Hc.
    + destruct t as [|c0 t].
      * apply alt_run.
        -- reflexivity.
        -- discriminate.
        -- simpl. rewrite Hc. exact Hdig.
        -- exact Hrest.
        -- exact Hmax.
      * apply alt_run.
        -- reflexivity.
        -- discriminate.
        -- simpl. rewrite Hc. reflexivity.
        -- apply alt_run; assumption.
        -- intros ? ? ? [= <- <- <-]. discriminate.
    + apply alt_run; try assumption. simpl. rewrite Hc. exact Ht.
Qed.

(** In front of a split that does not begin with a run of digits, a run
    of digits becomes an element of its own. *)
Lemma re_split_run_front (d r : list ascii) :
  d <> [] -> forallb is_digit d = true -> starts_with_text r = true ->
  re_split (d ++ r) = [] :: d :: re_split r.
Proof.
  intros Hne Hdig Hr.
  assert (Hhead : forall t0 more, re_split r = t0 :: more ->
                                  t0 <> [] \/ more = []).
  { intros t0 more E. destruct r as [|c r'].
    - injection E as <- <-. right. reflexivity.
    - simpl in E, Hr. apply negb_true_iff in Hr. unfold push in E.
      rewrite Hr in E. destruct (re_split r') as [|t1 more1].
      + injection E as <- <-. left. discriminate.
      + injection E as <- <-. left. discriminate. }
  induction d as [|c d' IH]; [contradiction|].
  simpl in Hdig. apply andb_true_iff in Hdig as [Hc Hd'].
  destruct d' as [|c' d''].
  - simpl. unfold push. rewrite Hc.
    pose proof (re_split_not_nil r) as Hnil.
    destruct (re_split r) as [|t0 more] eqn:E; [contradiction|].
    destruct (Hhead t0 more eq_refl) as [Ht | ->].
    + destruct t0; [contradiction|reflexivity].
    + destruct t0; reflexivity.
  - change (re_split ((c :: c' :: d'') ++ r))
      with (push c (re_split ((c' :: d'') ++ r))).
    rewrite IH by (discriminate || assumption).
    unfold push. rewrite Hc. reflexivity.
Qed.

Lemma push_before_run (c : ascii) (l : list (list ascii)) (d : list ascii)
  (rest : list (list ascii)) :
  l <> [] -> l <> [[]] -> push c (l ++ d :: rest) = push c l ++ d :: rest.
Proof.
  intros Hnil Hempty. unfold push.
  destruct l as [|t0 [|d0 more]]; [contradiction| |].
  - destruct t0; [contradiction|]. destruct (is_digit c); reflexivity.
  - destruct (is_digit c), t0; reflexivity.
Qed.

(** A split carries over a run of digits: the elements before the run
    are those of the text before it, the elements after it those of the
    text after it. *)
Lemma re_split_around_run (p d r : list ascii) :
  ends_with_text p = true ->
  d <> [] -> forallb is_digit d = true ->
  starts_with_text r = true ->
  re_split (p ++ d ++ r) = re_split p ++ d :: re_split r.
Proof.
  intros Hp Hne Hdig Hr.
  induction p as [|c p' IH].
  - simpl. apply re_split_run_front; assumption.
  - destruct p' as [|c' p''].
    + simpl in Hp. apply negb_true_iff in Hp.
      change (re_split ([c] ++ d ++ r)) with (push c (re_split ([] ++ d ++ r))).
      rewrite IH by reflexivity.
      simpl. unfold push. rewrite Hp. reflexivity.
    + assert (Hp' : ends_with_text (c' :: p'') = true) by exact Hp.
      change (re_split ((c :: c' :: p'') ++ d ++ r))
        with (push c (re_split ((c' :: p'') ++ d ++ r))).
      change (re_split (c :: c' :: p'')) with (push c (re_split (c' :: p''))).
      rewrite (IH Hp'). apply push_before_run.
      * apply re_split_not_nil.
      * intros E. pose proof (re_split_concat (c' :: p'')) as Hcat.
        rewrite E in Hcat. discriminate Hcat.
Qed.

(** X12: splitting loses nothing and is the only way to cut a string into
    texts and runs of digits that take turns: the elements of the split
    joined together are the string, and every such cut of a string is
    its split. *)
Theorem re_split_is_the_cut_into_texts_and_runs (s : list ascii) :
  concat (re_split s) = s /\
  alternating (re_split s) /\
  (forall cut, alternating cut -> concat cut = s -> re_split s = cut).
Proof.
  split; [apply re_split_concat|]. split; [apply re_split_alternating|].
  assert (Htext : forall t Y,
             existsb is_digit t = false ->
             re_split (t ++ Y)
             = match re_split Y with
               | t0 :: more => (t ++ t0) :: more
               | [] => []
               end).
  { intros t Y Ht. induction t as [|c t' IH].
    - simpl. destruct (re_split Y); reflexivity.
    - simpl in Ht. apply orb_false_iff in Ht as [Hc Ht'].
      cbn [app re_split]. rewrite (IH Ht').
      pose proof (re_split_not_nil Y) as Hnil.
      destruct (re_split Y) as [|t0 more]; [contradiction|].
      unfold push. rewrite Hc. reflexivity. }
  intros cut Halt <-.
  induction Halt as [t Ht|t d rest Ht Hd Hdig Hrest IH Hmax].
  - simpl. rewrite app_nil_r.
    rewrite <- (app_nil_r t) at 1. rewrite (Htext t [] Ht). simpl.
    rewrite app_nil_r. reflexivity.
  - cbn [concat]. rewrite (Htext t _ Ht).
    rewrite re_split_run_front; try assumption.
    + rewrite IH, app_nil_r. reflexivity.
    + inversion Hrest as [t' Ht'|t' d' rest' Ht' Hd' Hdig' _ _]; subst.
      * simpl. rewrite app_nil_r. destruct t' as [|c t']; [reflexivity|].
        simpl in Ht'. apply orb_false_iff in Ht' as [Hc _].
        simpl. rewrite Hc. reflexivity.
      * destruct t' as [|c t'].
        -- exfalso. apply (Hmax [] d' rest' eq_refl). reflexivity.
        -- simpl in Ht'. apply orb_false_iff in Ht' as [Hc _].
           simpl. rewrite Hc. reflexivity.
Qed.

End SplitDigits.

Lemma digits_only_reads_digits (d : list ascii) :
  d <> [] -> forallb generate_examples.is_digit d = true ->
  (length d <= 640)%nat ->
  generate_examples.digits_only d = Some (generate_examples.decimal d).
Proof.
  intros Hne Hdig _. unfold generate_examples.digits_only.
  destruct d; [contradiction|]. rewrite Hdig. reflexivity.
Qed.

Lemma digits_only_refuses_text (t : list ascii) :
  existsb generate_examples.is_digit t = false ->
  generate_examples.digits_only t = None.
Proof.
  intros Ht. destruct t as [|c t']; [reflexivity|].
  simpl in *. apply orb_false_iff in Ht as [-> _]. reflexivity.
Qed.

(** A stand-in for the builtin [int] that keeps its two laws. *)
Definition plain_builtins : generate_examples.Builtins :=
  {| generate_examples.int_of_str := generate_examples.digits_only;
     generate_examples.int_of_digits := digits_only_reads_digits;
     generate_examples.int_without_digit := digits_only_refuses_text |}.

Section NaturalKeys.

Import generate_examples.

Context `{Builtins}.

Lemma tryint_text (t : list ascii) :
  existsb is_digit t = false -> tryint t = Str t.
Proof.
  intros Ht. unfold tryint. rewrite int_without_digit by exact Ht.
  reflexivity.
Qed.

Lemma tryint_run (d : list ascii) :
  d <> [] -> forallb is_digit d = true -> (length d <= 640)%nat ->
  tryint d = Int (decimal d).
Proof.
  intros Hne Hdig Hlen. unfold tryint.
  rewrite int_of_digits by assumption. reflexivity.
Qed.

Lemma chunk_no_longer_than_string (s c : list ascii) :
  In c (re_split s) -> (length c <= length s)%nat.
Proof.
  rewrite <- (re_split_concat s) at 2.
  generalize (re_split s) as l.
  induction l as [|x l IH]; [intros []|].
  intros [->|Hin]; simpl; rewrite length_app; [lia|].
  specialize (IH Hin). lia.
Qed.

Lemma key_of_alternating (l : list (list ascii)) :
  alternating l ->
  (forall c, In c l -> (length c <= 640)%nat) ->
  typed false (map tryint l).
Proof.
  induction 1 as [t Ht|t d rest Ht Hd Hdig Hrest IH Hmax]; intros Hlen.
  - simpl. rewrite (tryint_text t Ht). simpl. auto.
  - simpl. rewrite (tryint_text t Ht).
    rewrite (tryint_run d Hd Hdig) by (apply Hlen; simpl; auto).
    simpl. repeat split. apply IH. intros c Hc. apply Hlen. simpl. auto.
Qed.

Lemma key_is_typed (s : list ascii) :
  (length s <= 640)%nat -> typed false (alphanum_key s).
Proof.
  intros Hlen. apply key_of_alternating; [apply re_split_alternating|].
  intros c Hc. pose proof (chunk_no_longer_than_string s c Hc). lia.
Qed.

Lemma code_points_tell_characters_apart (a b : ascii) :
  nat_of_ascii a = nat_of_ascii b -> a = b.
Proof.
  intros E. rewrite <- (ascii_nat_embedding a), <- (ascii_nat_embedding b).
  rewrite E. reflexivity.
Qed.

Lemma str_lt_order (a b : list ascii) :
  (str_lt a b = true -> str_lt b a = false) /\
  (str_lt a b = false -> str_lt b a = false -> a = b).
Proof.
  revert b. induction a as [|x a' IH]; intros [|y b']; simpl;
    try (split; congruence).
  destruct (nat_of_ascii x <? nat_of_ascii y)%nat eqn:Exy;
    destruct (nat_of_ascii y <? nat_of_ascii x)%nat eqn:Eyx;
    try (split; congruence).
  - apply Nat.ltb_lt in Exy, Eyx. lia.
  - apply Nat.ltb_ge in Exy, Eyx.
    assert (x = y) as -> by (apply code_points_tell_characters_apart; lia).
    destruct (IH b') as [H1 H2]. split; [exact H1|].
    intros E1 E2. rewrite (H2 E1 E2). reflexivity.
Qed.

(** Keys of the same make compare both ways, never both "less", and tie
    only when they are equal. *)
Lemma typed_keys_compare (k1 : list Chunk) :
  forall (k2 : list Chunk) (number_first : bool),
    typed number_first k1 -> typed number_first k2 ->
    exists b1 b2,
      list_lt k1 k2 = Returns b1 /\ list_lt k2 k1 = Returns b2 /\
      (b1 = true -> b2 = false) /\
      (b1 = false -> b2 = false -> k1 = k2).
Proof.
  induction k1 as [|x k1' IH]; intros [|y k2'] nf T1 T2.
  - exists false, false. repeat split; auto.
  - exists true, false. repeat split; auto. discriminate.
  - exists false, true. repeat split; auto; discriminate.
  - cbn [list_lt]. unfold chunk_eq.
    destruct (decide (x = y)) as [->|Hne].
    + rewrite !bool_decide_eq_true_2 by reflexivity.
      assert (exists nf', typed nf' k1' /\ typed nf' k2') as (nf' & T1' & T2').
      { destruct y; simpl in T1, T2; destruct T1 as [_ T1], T2 as [_ T2];
          eauto. }
      destruct (IH k2' nf' T1' T2') as (b1 & b2 & E1 & E2 & Hasym & Htie).
      exists b1, b2. repeat split; auto.
      intros F1 F2. rewrite (Htie F1 F2). reflexivity.
    + rewrite !bool_decide_eq_false_2 by congruence.
      destruct x as [a|a], y as [b|b]; simpl in T1, T2;
        destruct T1 as [N1 _], T2 as [N2 _]; try congruence; simpl.
      * exists (a <? b), (b <? a). repeat split; auto.
        -- intros E. apply Z.ltb_lt in E. apply Z.ltb_ge. lia.
        -- intros E1 E2. apply Z.ltb_ge in E1, E2.
           exfalso. apply Hne. f_equal. lia.
      * destruct (str_lt_order a b) as [Hasym Htie].
        exists (str_lt a b), (str_lt b a). repeat split; auto.
        intros E1 E2. exfalso. apply Hne. f_equal. apply Htie; assumption.
Qed.

(** X13: any two names of up to 640 characters, all of code points below
    256, can be sorted by their keys: comparing the keys never raises,
    whichever comes first in the comparison; the two comparisons never
    both answer "less"; and when neither does, the keys are equal.  (A
    name with a decimal digit of another script, which [int] reads and
    the pattern [[0-9]] does not split off, is not a name of this model:
    its key can hold a number where another key holds a string.) *)
Theorem alphanum_keys_always_compare (s t : list ascii) :
  (length s <= 640)%nat -> (length t <= 640)%nat ->
  exists b1 b2,
    list_lt (alphanum_key s) (alphanum_key t) = Returns b1 /\
    list_lt (alphanum_key t) (alphanum_key s) = Returns b2 /\
    (b1 = true -> b2 = false) /\
    (b1 = false -> b2 = false -> alphanum_key s = alphanum_key t).
Proof.
  intros Hs Ht.
  apply (typed_keys_compare _ _ false); apply key_is_typed; assumption.
Qed.

Lemma list_lt_after_common_prefix (k : list Chunk) (a b : Chunk)
  (ka kb : list Chunk) :
  a <> b -> list_lt (k ++ a :: ka) (k ++ b :: kb) = chunk_lt a b.
Proof.
  intros Hne. induction k as [|x k IH]; cbn [app list_lt]; unfold chunk_eq.
  - rewrite bool_decide_eq_false_2 by exact Hne. reflexivity.
  - rewrite bool_decide_eq_true_2 by reflexivity. exact IH.
Qed.

Lemma key_around_run (p d r : list ascii) :
  ends_with_text p = true ->
  d <> [] -> forallb is_digit d = true -> (length d <= 640)%nat ->
  starts_with_text r = true ->
  alphanum_key (p ++ d ++ r)
  = map tryint (re_split p) ++ Int (decimal d) :: alphanum_key r.
Proof.
  intros Hp Hne Hdig Hlen Hr. unfold alphanum_key.
  rewrite re_split_around_run by assumption.
  rewrite map_app. cbn [map]. rewrite tryint_run by assumption.
  reflexivity.
Qed.

(** X14: numbers in names sort by value, not by spelling: of two names that
    agree up to a run of digits and differ in the number the run writes,
    the one with the smaller number has the smaller key, whatever follows
    the runs.  So "file2.md" comes before "file10.md". *)
Theorem numbers_in_names_sort_by_value (p d1 r1 d2 r2 : list ascii) :
  ends_with_text p = true ->
  d1 <> [] -> forallb is_digit d1 = true -> (length d1 <= 640)%nat ->
  d2 <> [] -> forallb is_digit d2 = true -> (length d2 <= 640)%nat ->
  starts_with_text r1 = true -> starts_with_text r2 = true ->
  decimal d1 <> decimal d2 ->
  list_lt (alphanum_key (p ++ d1 ++ r1)) (alphanum_key (p ++ d2 ++ r2))
  = Returns (decimal d1 <? decimal d2).
Proof.
  intros Hp Hne1 Hdig1 Hlen1 Hne2 Hdig2 Hlen2 Hr1 Hr2 Hdiff.
  rewrite !key_around_run by assumption.
  rewrite list_lt_after_common_prefix by congruence. reflexivity.
Qed.

(** X15: leading zeros do not count: two names that differ only in how a run
    of digits spells the same number have the same key, so sorting by the
    key leaves them in the order they came in. *)
Theorem leading_zeros_give_the_same_key (p d1 d2 r : list ascii) :
  ends_with_text p = true ->
  d1 <> [] -> forallb is_digit d1 = true -> (length d1 <= 640)%nat ->
  d2 <> [] -> forallb is_digit d2 = true -> (length d2 <= 640)%nat ->
  starts_with_text r = true ->
  decimal d1 = decimal d2 ->
  alphanum_key (p ++ d1 ++ r) = alphanum_key (p ++ d2 ++ r) /\
  list_lt (alphanum_key (p ++ d1 ++ r)) (alphanum_key (p ++ d2 ++ r))
  = Returns false.
Proof.
  intros Hp Hne1 Hdig1 Hlen1 Hne2 Hdig2 Hlen2 Hr Hsame.
  assert (E : alphanum_key (p ++ d1 ++ r) = alphanum_key (p ++ d2 ++ r)).
  { rewrite !key_around_run by assumption. rewrite Hsame. reflexivity. }
  split; [exact E|]. rewrite E.
  generalize (alphanum_key (p ++ d2 ++ r)) as k.
  induction k as [|x k IH]; [reflexivity|].
  cbn [list_lt]. unfold chunk_eq.
  rewrite bool_decide_eq_true_2 by reflexivity. exact IH.
Qed.

End NaturalKeys.

Lemma alphanum_keys_always_compare_witness :
  exists b1 b2,
    @generate_examples.list_lt
      (@generate_examples.alphanum_key plain_builtins
         (list_ascii_of_string "10-map.md"))
      (@generate_examples.alphanum_key plain_builtins
         (list_ascii_of_string "map-9.md")) = Returns b1 /\
    @generate_examples.list_lt
      (@generate_examples.alphanum_key plain_builtins
         (list_ascii_of_string "map-9.md"))
      (@generate_examples.alphanum_key plain_builtins
         (list_ascii_of_string "10-map.md")) = Returns b2.
Proof.
  destruct (@alphanum_keys_always_compare plain_builtins
              (list_ascii_of_string "10-map.md")
              (list_ascii_of_string "map-9.md"))
    as (b1 & b2 & E1 & E2 & _).
  - simpl. lia.
  - simpl. lia.
  - exists b1, b2. split; [exact E1|exact E2].
Defined.

Lemma numbers_in_names_sort_by_value_witness :
  @generate_examples.list_lt
    (@generate_examples.alphanum_key plain_builtins
       (list_ascii_of_string "file2.md"))
    (@generate_examples.alphanum_key plain_builtins
       (list_ascii_of_string "file10.md")) = Returns true.
Proof.
  apply (@numbers_in_names_sort_by_value plain_builtins
           (list_ascii_of_string "file") (list_ascii_of_string "2")
           (list_ascii_of_string ".md") (list_ascii_of_string "10")
           (list_ascii_of_string ".md"));
    try reflexivity; try discriminate; simpl; lia.
Defined.

Lemma leading_zeros_give_the_same_key_witness :
  @generate_examples.alphanum_key plain_builtins
    (list_ascii_of_string "a01.md")
  = @generate_examples.alphanum_key plain_builtins
      (list_ascii_of_string "a1.md").
Proof.
  apply (@leading_zeros_give_the_same_key plain_builtins
           (list_ascii_of_string "a") (list_ascii_of_string "01")
           (list_ascii_of_string "1") (list_ascii_of_string ".md"));
    try reflexivity; try discriminate; simpl; lia.
Defined.

(* ------------------------------------------------------------------ *)
(** ** Dimensions by file name *)

Section Dimensions.

Import generate_examples.

Lemma basename_from_text (current b : list ascii) :
  existsb is_sep b = false -> basename_from current b = current ++ b.
Proof.
  revert current. induction b as [|c b' IH]; intros current Hb; simpl.
  - rewrite app_nil_r. reflexivity.
  - simpl in Hb. apply orb_false_iff in Hb as [Hc Hb']. rewrite Hc.
    rewrite (IH _ Hb'), <- app_assoc. reflexivity.
Qed.

Lemma basename_from_app_text (current a b : list ascii) :
  existsb is_sep b = false ->
  basename_from current (a ++ b) = basename_from current a ++ b.
Proof.
  intros Hb. revert current.
  induction a as [|c a' IH]; intros current; simpl.
  - apply basename_from_text. exact Hb.
  - destruct (is_sep c); apply IH.
Qed.

Lemma basename_from_sep (current a : list ascii) :
  basename_from current (a ++ [sep]) = [].
Proof.
  revert current. induction a as [|c a' IH]; intros current; simpl.
  - reflexivity.
  - destruct (is_sep c); apply IH.
Qed.

(** X16: only the file name counts: for a name without ['/'], joined to any
    directory, [basename] gives the name back and [dimensions_for] is
    100 x 100 for "01-simple-text.xml" and 200 x 100 for every other
    name. *)
Theorem dimensions_for_goes_by_the_file_name (dir name : list ascii) :
  existsb is_sep name = false ->
  basename (join dir name) = name /\
  dimensions_for (join dir name)
  = if bool_decide (name = list_ascii_of_string "01-simple-text.xml")
    then mkDimension 100 100
    else mkDimension 200 100.
Proof.
  intros Hname.
  assert (Hbase : basename (join dir name) = name).
  { unfold join, basename.
    assert (Hstart : match name with c :: _ => is_sep c | [] => false end
                     = false).
    { destruct name as [|c name']; [reflexivity|].
      simpl in Hname. apply orb_false_iff in Hname as [Hc _]. exact Hc. }
    rewrite Hstart.
    destruct (last dir) as [e|] eqn:Hlast.
    - apply last_Some in Hlast as [dir' ->].
      destruct (is_sep e) eqn:He.
      + unfold is_sep in He. apply bool_decide_eq_true_1 in He. subst e.
        rewrite basename_from_app_text by exact Hname.
        rewrite basename_from_sep. reflexivity.
      + change ((dir' ++ [e]) ++ sep :: name)
          with ((dir' ++ [e]) ++ [sep] ++ name).
        rewrite app_assoc.
        rewrite basename_from_app_text by exact Hname.
        rewrite basename_from_sep. reflexivity.
    - apply last_None in Hlast. subst dir. simpl.
      apply basename_from_text. exact Hname. }
  split; [exact Hbase|].
  unfold dimensions_for, dimensions_by_file. rewrite Hbase.
  rewrite lookup_singleton.
  destruct (decide (list_ascii_of_string "01-simple-text.xml" = name))
    as [E|Hne].
  - rewrite bool_decide_eq_true_2 by (symmetry; exact E). reflexivity.
  - rewrite bool_decide_eq_false_2 by congruence. reflexivity.
Qed.

End Dimensions.

Lemma dimensions_for_goes_by_the_file_name_witness :
  generate_examples.dimensions_for
    (generate_examples.join (list_ascii_of_string "build-scripts/examples")
       (list_ascii_of_string "01-simple-text.xml"))
  = generate_examples.mkDimension 100 100.
Proof.
  apply (dimensions_for_goes_by_the_file_name
           (list_ascii_of_string "build-scripts/examples")
           (list_ascii_of_string "01-simple-text.xml")).
  reflexivity.
Defined.

(* ------------------------------------------------------------------ *)
(** ** Redrawing on a perceptible move *)

Section MovingRedraw.

Context `{Externals}.

Import MovingMap.

(** X4: a draw call at a position that is at least the resolution away
    from the stored last position, on either axis, redraws: the call
    returns, the cached raster becomes a new image whose tiles are
    centred on the current position and which is rotated by the current
    heading as [_redraw] rotates, the current position becomes the stored
    one, and that new raster is what the destination receives. *)
Theorem perceptible_move_is_redrawn (s : t * list Raster) (image : nat)
  (location last : Point) (azimuth : option Q) (x y lx ly : Q) :
  reachable s ->
  lon location = Some x -> lat location = Some y ->
  (image < length (snd s))%nat ->
  PerceptibleMovementCheck.last_location (perceptible (fst s)) = Some last ->
  lon last = Some lx -> lat last = Some ly ->
  let view := Frames.view_at (fst s) x y in
  (PerceptibleMovementCheck.x_resolution view <= Qabs (lx - x) \/
   PerceptibleMovementCheck.y_resolution view <= Qabs (ly - y))%Q ->
  exists (self' : t) (w' : list Raster) (c : nat) (r d : Raster),
    draw image location azimuth s = (Returns tt, (self', w')) /\
    cached self' = Some c /\ (length (snd s) <= c)%nat /\
    w' !! c = Some r /\
    tiles_of r = Some view /\
    rotation_of r = Picture.heading (rotate (fst s)) azimuth /\
    PerceptibleMovementCheck.last_location (perceptible self')
      = Some location /\
    snd s !! image = Some d /\
    w' !! image = Some (Paste r (at_ (fst s)) d).
Proof.
  intros Hreach Hx Hy Himage Hlast Hlx Hly view Hfar.
  pose proof (reachable_consistent s Hreach) as Hs.
  destruct s as [self w]. cbn [fst snd] in *.
  destruct (draw_cases self w image location azimuth x y Hs Hx Hy Himage)
    as [(_ & c & news & d & Hd & Hc & Hl & Hdest)
       |(Hm & _)]; cbv zeta in *.
  - eexists _, _, c, _, d. split; [exact Hd|].
    split; [reflexivity|]. split; [exact Hc|].
    assert (Hne : c <> image) by lia.
    split; [rewrite list_lookup_insert_ne by congruence; exact Hl|].
    split; [apply tiles_of_moving|].
    split; [rewrite rotation_of_moving; reflexivity|].
    split; [reflexivity|]. split; [exact Hdest|].
    apply list_lookup_insert_eq. rewrite length_app. lia.
  - exfalso.
    destruct (not_moved_is_below_resolution (Frames.view_at self x y)
                last location lx ly x y Hlx Hly Hx Hy) as [Bx By].
    { destruct (perceptible self) as [stored]. cbn in Hlast. subst stored.
      rewrite Hm. reflexivity. }
    fold view in Bx, By.
    destruct Hfar as [F|F]; [apply (Qlt_not_le _ _ Bx F)
                            |apply (Qlt_not_le _ _ By F)].
Qed.

End MovingRedraw.

Lemma perceptible_move_is_redrawn_witness :
  let s0 := (Sample.moving (1 # 4), Sample.frame) in
  let s1 :=
    snd (@MovingMap.draw Sample.flat 0%nat (Sample.position 1 2) None s0) in
  exists (self' : MovingMap.t) (w' : list Raster) (c : nat) (r : Raster),
    @MovingMap.draw Sample.flat 0%nat (Sample.position (17 # 16) 2)
      (Some 90%Q) s1 = (Returns tt, (self', w')) /\
    MovingMap.cached self' = Some c /\
    w' !! c = Some r /\
    tiles_of r = Some (Frames.view_at (fst s1) (17 # 16) 2).
Proof.
  intros s0 s1.
  destruct (@perceptible_move_is_redrawn Sample.flat s1 0%nat
              (Sample.position (17 # 16) 2) (Sample.position 1 2)
              (Some 90%Q) (17 # 16)%Q 2%Q 1%Q 2%Q)
    as (self' & w' & c & r & d & Hd & Hc & _ & Hl & Ht & _).
  - apply (@MovingMap.reach_draw Sample.flat s0 0%nat (Sample.position 1 2)
             None (fst (@MovingMap.draw Sample.flat 0%nat
                          (Sample.position 1 2) None s0)) s1).
    + apply MovingMap.reach_init.
    + reflexivity.
  - reflexivity.
  - reflexivity.
  - simpl. lia.
  - reflexivity.
  - reflexivity.
  - reflexivity.
  - left. vm_compute. discriminate.
  - exists self', w', c, r. repeat split; assumption.
Defined.

(* ------------------------------------------------------------------ *)
(** ** The marker and the crop *)

(** X17: for a moving map as [__init__] builds it, of a size whose doubled
    square is below 2^52, and a view as [draw] builds it, given that the
    tile renderer returns: the raster [_redraw] returns is the finished
    crop of the tiles, rotated or not, and the marker was drawn on the
    tiles themselves, before the rotation and the crop.  The marker is a
    12 by 12 ellipse whose centre is, on both axes, the centre of the crop
    rectangle and the centre of the hypotenuse-by-hypotenuse raster, which
    is the centre of the rotation: it sits in the middle of the widget
    whatever the heading.  The crop rectangle lies inside the raster, and
    the marker lies inside the crop rectangle exactly when the size is at
    least 12. *)
Theorem marker_is_centred_in_the_crop (at_ : Z * Z) (rotate : bool)
  (size zoom : Z) (corner_radius : option Z) (opacity : Q)
  (x y : Q) (azimuth : option Q) (w : list Raster) :
  0 < size -> 2 * size ^ 2 < 2 ^ 52 ->
  let self := MovingMap.init at_ rotate size zoom corner_radius opacity in
  let map_ := Frames.view_at self x y in
  let h := MovingMap.hypotenuse self in
  exists (c : nat) (w' : list Raster) (mx0 my0 mx1 my1 : Q),
    MovingMap._redraw self map_ azimuth w = (Returns c, w') /\
    w' !! c
      = Some (Picture.finished corner_radius opacity size
                (Crop (MovingMap.bounds self)
                   (Picture.turned (Picture.heading rotate azimuth)
                      (Ellipse (mx0, my0, mx1, my1) (0, 0, 255) (0, 0, 0)
                         (Tiles map_))))) /\
    raster_size (Tiles map_) = (h, h) /\
    (let '(x0, y0, x1, y1) := MovingMap.bounds self in
     mx1 - mx0 == 12 /\ my1 - my0 == 12 /\
     mx0 + mx1 == x0 + x1 /\ my0 + my1 == y0 + y1 /\
     mx0 + mx1 == inject_Z h /\ my0 + my1 == inject_Z h /\
     0 <= x0 /\ 0 <= y0 /\ x1 <= inject_Z h /\ y1 <= inject_Z h /\
     ((12 <= size)%Z <-> x0 <= mx0 /\ mx1 <= x1 /\ y0 <= my0 /\ my1 <= y1))%Q.
Proof.
  intros Hs Hbound self map_ h.
  destruct (redraw_run self map_ azimuth w) as (c & news & Hrun & _ & Hl).
  destruct (hypotenuse_below size Hs Hbound) as [Hsz _]. cbv zeta in Hsz.
  exists c, (w ++ news),
    (MovingMap.half_width_height self - inject_Z 6)%Q,
    (MovingMap.half_width_height self - inject_Z 6)%Q,
    (MovingMap.half_width_height self + inject_Z 6)%Q,
    (MovingMap.half_width_height self + inject_Z 6)%Q.
  split; [exact Hrun|]. split; [exact Hl|]. split; [reflexivity|].
  unfold h, self. cbn [MovingMap.bounds MovingMap.init
                       MovingMap.half_width_height MovingMap.hypotenuse].
  rewrite Zle_Qle in Hsz.
  set (k := inject_Z (MovingMap.hypotenuse_of size)) in *.
  change (inject_Z 6) with 6%Q.
  unfold Qdiv. change (/ 2)%Q with (1 # 2)%Q.
  split; [Lqa.lra|]. split; [Lqa.lra|]. split; [Lqa.lra|].
  split; [Lqa.lra|]. split; [Lqa.lra|]. split; [Lqa.lra|].
  split; [Lqa.lra|]. split; [Lqa.lra|]. split; [Lqa.lra|].
  split; [Lqa.lra|].
  rewrite (Zle_Qle 12 size). change (inject_Z 12) with 12%Q. split.
  - intros Hge. repeat split; Lqa.lra.
  - intros (H1 & _). Lqa.lra.
Qed.

Lemma marker_is_centred_in_the_crop_witness :
  0 < 256 /\ 2 * 256 ^ 2 < 2 ^ 52 /\
  exists (c : nat) (w' : list Raster) (box : Box),
    MovingMap._redraw (Sample.moving (1 # 4))
      (Frames.view_at (Sample.moving (1 # 4)) 1 2) (Some 90%Q) Sample.frame
    = (Returns c, w') /\
    w' !! c
      = Some (Picture.finished None (1 # 4) 256
                (Crop (MovingMap.bounds (Sample.moving (1 # 4)))
                   (Rotate 90
                      (Ellipse box (0, 0, 255) (0, 0, 0)
                         (Tiles
                            (Frames.view_at (Sample.moving (1 # 4)) 1 2)))))).
Proof.
  split; [lia|]. split; [lia|].
  destruct (marker_is_centred_in_the_crop (10, 20) true 256 4 None (1 # 4)
              1 2 (Some 90%Q) Sample.frame ltac:(lia) ltac:(lia))
    as (c & w' & mx0 & my0 & mx1 & my1 & Hrun & Hl & _).
  exists c, w', (mx0, my0, mx1, my1). split; [exact Hrun|exact Hl].
Defined.
